(** * TDGi5: the schedule list views and the scheduling engine behind them

    The repository holds two variants of the [ScheduleList] React component
    (the one importing [api/scheduleApi], with feather icons, and the one
    importing [api/schedule-api], with the common [Button]) and the
    [ScheduleForm] component printed in the continuation guide.  The Java
    scheduling engine they talk to is not part of the sources; it is modelled
    here from its specification, in [Module Engine].

    Layout: wire enums and the [Schedule] interface; a small model of JavaScript
    values; the two list components; the form; the engine; then the theorems. *)

From Stdlib Require Import ZArith NArith Lia Sorted.
From stdpp Require Import base option list strings gmap.

Local Open Scope string_scope.
Local Open Scope list_scope.

(** ** Wire enums and the [Schedule] interface *)

(** [status: 'ACTIVE' | 'PAUSED' | 'COMPLETED' | 'ERROR'] *)
Inductive Status := ACTIVE | PAUSED | COMPLETED | ERROR.

(** [scheduleType: 'ONE_TIME' | 'RECURRING'] *)
Inductive ScheduleType := ONE_TIME | RECURRING.

#[global] Instance Status_eq_dec : EqDecision Status.
Proof. solve_decision. Defined.

#[global] Instance ScheduleType_eq_dec : EqDecision ScheduleType.
Proof. solve_decision. Defined.

(** The string literal each member of the union type stands for. *)
Definition status_str (s : Status) : string :=
  match s with
  | ACTIVE => "ACTIVE"
  | PAUSED => "PAUSED"
  | COMPLETED => "COMPLETED"
  | ERROR => "ERROR"
  end.

Definition scheduleType_str (t : ScheduleType) : string :=
  match t with
  | ONE_TIME => "ONE_TIME"
  | RECURRING => "RECURRING"
  end.

(** [interface Schedule], the same declaration in both list components.
    Optional fields ([lastRunTime?], [cronExpression?]) are options; the
    timestamps are ISO strings as they travel on the wire. *)
Record Schedule := mkSchedule {
  id : string;
  name : string;
  templateId : string;
  templateName : string;
  status : Status;
  scheduleType : ScheduleType;
  nextRunTime : string;
  lastRunTime : option string;
  cronExpression : option string;
  outputFormat : string;
  rowCount : Z
}.

(** ** JavaScript values, as far as the components use them *)

Inductive JsVal :=
| JNum (n : Z)
| JStr (s : string)
| JFun (ident : N)
| JUndefined.

#[global] Instance JsVal_eq_dec : EqDecision JsVal.
Proof. solve_decision. Defined.

(** Truthiness of a string: only the empty string is falsy. *)
Definition truthy_string (s : string) : bool :=
  match s with
  | EmptyString => false
  | String _ _ => true
  end.

(** Truthiness of an optional string field: [undefined] and [''] are falsy. *)
Definition truthy_opt (o : option string) : bool :=
  match o with
  | Some s => truthy_string s
  | None => false
  end.

(** [n || d] on numbers: [0] is falsy and yields the right operand. *)
Definition num_or (n d : Z) : Z := if Z.eqb n 0 then d else n.

(** The enum spellings of the wire contract, as the REST contract lists
    them (section 6 of the specification). *)
Definition wire_status_values : list string :=
  ["ACTIVE"; "PAUSED"; "COMPLETED"; "ERROR"].

Definition wire_scheduleType_values : list string :=
  ["ONE_TIME"; "RECURRING"].

(** ** The list component: what both variants share

    State, API calls, handlers, [formatDate], [getStatusBadgeColor], the
    Last Run cell, the status filter and the table props are letter for letter
    the same in the two [ScheduleList] files; they are embedded once. *)
Module ListCore.

(** Calls into [api/scheduleApi]. [getSchedules] receives one object literal,
    kept as the ordered list of its properties. *)
Inductive Request :=
| GetSchedules (params : list (string * JsVal))
| ActivateSchedule (scheduleId : string)
| PauseSchedule (scheduleId : string)
| DeleteSchedule (scheduleId : string).

(** What a handler does to the outside: an API call or a route change. *)
Inductive Effect :=
| ApiCall (r : Request)
| Navigate (to : string).

(** The six [useState] cells. *)
Record State := mkState {
  selectedSchedule : option Schedule;
  showDeleteModal : bool;
  searchTerm : string;
  statusFilter : string;
  currentPage : Z;
  pageSize : Z
}.

(** [useState(null)], [useState(false)], [useState('')], [useState('')],
    [useState(0)], [useState(10)]. *)
Definition initialState : State :=
  {| selectedSchedule := None; showDeleteModal := false;
     searchTerm := ""; statusFilter := "";
     currentPage := 0; pageSize := 10 |}.

Definition setSelectedSchedule (v : option Schedule) (st : State) : State :=
  {| selectedSchedule := v; showDeleteModal := showDeleteModal st;
     searchTerm := searchTerm st; statusFilter := statusFilter st;
     currentPage := currentPage st; pageSize := pageSize st |}.

Definition setShowDeleteModal (v : bool) (st : State) : State :=
  {| selectedSchedule := selectedSchedule st; showDeleteModal := v;
     searchTerm := searchTerm st; statusFilter := statusFilter st;
     currentPage := currentPage st; pageSize := pageSize st |}.

Definition setSearchTerm (v : string) (st : State) : State :=
  {| selectedSchedule := selectedSchedule st; showDeleteModal := showDeleteModal st;
     searchTerm := v; statusFilter := statusFilter st;
     currentPage := currentPage st; pageSize := pageSize st |}.

Definition setStatusFilter (v : string) (st : State) : State :=
  {| selectedSchedule := selectedSchedule st; showDeleteModal := showDeleteModal st;
     searchTerm := searchTerm st; statusFilter := v;
     currentPage := currentPage st; pageSize := pageSize st |}.

Definition setCurrentPage (v : Z) (st : State) : State :=
  {| selectedSchedule := selectedSchedule st; showDeleteModal := showDeleteModal st;
     searchTerm := searchTerm st; statusFilter := statusFilter st;
     currentPage := v; pageSize := pageSize st |}.

Definition setPageSize (v : Z) (st : State) : State :=
  {| selectedSchedule := selectedSchedule st; showDeleteModal := showDeleteModal st;
     searchTerm := searchTerm st; statusFilter := statusFilter st;
     currentPage := currentPage st; pageSize := v |}.

(** The object literal
    [{ page: currentPage, size: pageSize, search: searchTerm, status: statusFilter }]
    written at every call of [fetchSchedules] and in the initial arguments of
    [useApi(getSchedules, ...)]. *)
Definition fetchArgs (st : State) : list (string * JsVal) :=
  [("page", JNum (currentPage st)); ("size", JNum (pageSize st));
   ("search", JStr (searchTerm st)); ("status", JStr (statusFilter st))].

Definition fetchSchedules (args : list (string * JsVal)) : Effect :=
  ApiCall (GetSchedules args).

(** [useApi(getSchedules, [{...}], { immediate: true })]: the call made on
    mount with the initial arguments. *)
Definition immediateFetch (st : State) : list Effect :=
  [fetchSchedules (fetchArgs st)].

(** The dependency array of the refresh effect,
    [[currentPage, pageSize, searchTerm, statusFilter, fetchSchedules]];
    [fetchId] stands for the identity of the [execute] function that
    [useApi] returned in this render. *)
Definition refreshDeps (fetchId : N) (st : State) : list JsVal :=
  [JNum (currentPage st); JNum (pageSize st);
   JStr (searchTerm st); JStr (statusFilter st); JFun fetchId].

(** React's rule for [useEffect]: run after the first render, and after a
    render in which some dependency differs from the previous render's. *)
Definition depsChanged (prev : option (list JsVal)) (cur : list JsVal) : bool :=
  match prev with
  | None => true
  | Some p => negb (bool_decide (p = cur))
  end.

(** [useEffect(() => { fetchSchedules({...}); }, [...])]. *)
Definition refreshEffect (prev : option (list JsVal)) (fetchId : N) (st : State)
  : list Effect :=
  if depsChanged prev (refreshDeps fetchId st)
  then [fetchSchedules (fetchArgs st)]
  else [].

(** [handleActivate]: [responseData] says whether [response.data] of the
    awaited call is truthy. *)
Definition handleActivate (st : State) (schedule : Schedule) (responseData : bool)
  : list Effect :=
  ApiCall (ActivateSchedule (id schedule))
    :: (if responseData then [fetchSchedules (fetchArgs st)] else []).

Definition handlePause (st : State) (schedule : Schedule) (responseData : bool)
  : list Effect :=
  ApiCall (PauseSchedule (id schedule))
    :: (if responseData then [fetchSchedules (fetchArgs st)] else []).

Definition handleDeleteClick (schedule : Schedule) (st : State) : State :=
  setShowDeleteModal true (setSelectedSchedule (Some schedule) st).

Definition handleDeleteConfirm (st : State) (responseData : bool)
  : State * list Effect :=
  match selectedSchedule st with
  | Some sel =>
      if responseData
      then (setShowDeleteModal false st,
            [ApiCall (DeleteSchedule (id sel)); fetchSchedules (fetchArgs st)])
      else (st, [ApiCall (DeleteSchedule (id sel))])
  | None => (st, [])
  end.

Definition handleEditClick (schedule : Schedule) : list Effect :=
  [Navigate ("/schedules/" +:+ id schedule +:+ "/edit")].

Definition handleViewClick (schedule : Schedule) : list Effect :=
  [Navigate ("/schedules/" +:+ id schedule)].

(** [setSearchTerm(e.target.value); setCurrentPage(0);] *)
Definition handleSearchChange (value : string) (st : State) : State :=
  setCurrentPage 0 (setSearchTerm value st).

(** [setStatusFilter(e.target.value); setCurrentPage(0);] *)
Definition handleStatusFilterChange (value : string) (st : State) : State :=
  setCurrentPage 0 (setStatusFilter value st).

(** What a cell shows: a literal, or the result of
    [new Date(dateString).toLocaleString()], kept symbolic because it depends
    on the browser's locale. *)
Inductive CellText :=
| Literal (s : string)
| DateToLocaleString (dateString : string).

Definition formatDate (dateString : string) : CellText :=
  if negb (truthy_string dateString) then Literal "N/A"
  else DateToLocaleString dateString.

Definition getStatusBadgeColor (st : string) : string :=
  if String.eqb st "ACTIVE" then "success"
  else if String.eqb st "PAUSED" then "warning"
  else if String.eqb st "COMPLETED" then "info"
  else if String.eqb st "ERROR" then "danger"
  else "default".

(** Next Run column: [formatDate(schedule.nextRunTime)]. *)
Definition nextRunCell (schedule : Schedule) : CellText :=
  formatDate (nextRunTime schedule).

(** Last Run column:
    [schedule.lastRunTime ? formatDate(schedule.lastRunTime) : 'Never']. *)
Definition lastRunCell (schedule : Schedule) : CellText :=
  match lastRunTime schedule with
  | Some t => if truthy_string t then formatDate t else Literal "Never"
  | None => Literal "Never"
  end.

(** The [<option value=...>label</option>] list of the status filter. *)
Definition statusFilterOptions : list (string * string) :=
  [("", "All Statuses"); ("ACTIVE", "Active"); ("PAUSED", "Paused");
   ("COMPLETED", "Completed"); ("ERROR", "Error")].

(** The body of the list response; any property may be missing. *)
Record Page := mkPage {
  content : option (list Schedule);
  totalElements : option Z;
  totalPages : option Z
}.

(** What [useApi] keeps in [data]: the HTTP response, whose [data] is the body. *)
Record Response := mkResponse { data : option Page }.

(** [schedulesData?.data?.content || []]; an array, even empty, is truthy. *)
Definition tableData (schedulesData : option Response) : list Schedule :=
  default [] ((schedulesData ≫= data) ≫= content).

(** [schedulesData?.data?.totalPages || 1] *)
Definition paginationTotalPages (schedulesData : option Response) : Z :=
  match (schedulesData ≫= data) ≫= totalPages with
  | Some n => num_or n 1
  | None => 1
  end.

(** [schedulesData?.data?.totalElements || 0] *)
Definition paginationTotalItems (schedulesData : option Response) : Z :=
  match (schedulesData ≫= data) ≫= totalElements with
  | Some n => num_or n 0
  | None => 0
  end.

(** The user's gestures on the list, with the outcome of the awaited call
    where a handler awaits one. *)
Inductive Event :=
| SearchInput (value : string)
| StatusSelect (value : string)
| PageChange (page : Z)
| PageSizeChange (size : Z)
| DeleteClick (schedule : Schedule)
| DeleteConfirm (responseData : bool)
| ModalClose.

(** The state after the handler bound to the gesture has run. *)
Definition handle (e : Event) (st : State) : State :=
  match e with
  | SearchInput v => handleSearchChange v st
  | StatusSelect v => handleStatusFilterChange v st
  | PageChange p => setCurrentPage p st
  | PageSizeChange s => setPageSize s st
  | DeleteClick s => handleDeleteClick s st
  | DeleteConfirm ok => fst (handleDeleteConfirm st ok)
  | ModalClose => setShowDeleteModal false st
  end.

(** *** Rendered output *)

(** The fragment of JSX the cells produce. *)
#[local] Unset Elimination Schemes.
Inductive Jsx :=
| Txt (s : string)
| Icon (component : string) (size : Z)
| Elem (tag : string) (className : string) (children : list Jsx).
#[local] Set Elimination Schemes.

(** The text a reader sees: the text nodes in document order. *)
Fixpoint textContent (j : Jsx) : string :=
  match j with
  | Txt s => s
  | Icon _ _ => ""
  | Elem _ _ children =>
      (fix go (l : list Jsx) : string :=
         match l with
         | [] => ""
         | c :: l' => textContent c +:+ go l'
         end) children
  end.

(** What the [onClick] of a control in the Actions cell calls. *)
Inductive Action :=
| ViewClick (schedule : Schedule)
| EditClick (schedule : Schedule)
| Pause (schedule : Schedule)
| Activate (schedule : Schedule)
| DeleteClicked (schedule : Schedule).

(** A button of the Actions cell with the props the cell passes. *)
Record Control := mkControl {
  title : string;
  disabled : bool;
  isLoading : bool;
  onClick : Action
}.

(** A click on a native [<button>]: a disabled button fires no [onClick]. *)
Definition click (c : Control) : option Action :=
  if disabled c then None else Some (onClick c).

(** Modelled from the spec: the common [Button] component
    ([components/common/Button]) is not among the sources; it is read as
    handing [disabled] down to the [<button>] it renders, which is what the
    disabled activate control of a COMPLETED schedule relies on. *)
Definition buttonClick (c : Control) : option Action := click c.

(** Running the handler an [onClick] names, in the render whose state is [st]. *)
Definition perform (st : State) (a : Action) (responseData : bool)
  : State * list Effect :=
  match a with
  | ViewClick s => (st, handleViewClick s)
  | EditClick s => (st, handleEditClick s)
  | Pause s => (st, handlePause st s responseData)
  | Activate s => (st, handleActivate st s responseData)
  | DeleteClicked s => (handleDeleteClick s st, [])
  end.

(** A click on a control of the Actions cell; [fires] is the click rule of
    the element the variant renders. *)
Definition clickControl (fires : Control → option Action)
    (st : State) (c : Control) (responseData : bool) : State * list Effect :=
  match fires c with
  | Some a => perform st a responseData
  | None => (st, [])
  end.

End ListCore.

(** ** The list component with feather icons (imports [api/scheduleApi]) *)
Module ScheduleList.
Import ListCore.

(** Type column: branches on [schedule.scheduleType === 'ONE_TIME']. *)
Definition typeCell (schedule : Schedule) : Jsx :=
  Elem "div" "schedule-type"
    (if bool_decide (scheduleType schedule = ONE_TIME)
     then [Icon "Calendar" 14; Elem "span" "" [Txt "One-time"]]
     else [Icon "RefreshCw" 14; Elem "span" "" [Txt "Recurring"]]).

(** The pause/activate control: native buttons,
    [disabled={isPausing}] and
    [disabled={isActivating || schedule.status === 'COMPLETED'}]. *)
Definition toggleControl (isPausing isActivating : bool) (schedule : Schedule)
  : Control :=
  if bool_decide (status schedule = ACTIVE)
  then {| title := "Pause schedule"; disabled := isPausing;
          isLoading := false; onClick := Pause schedule |}
  else {| title := "Activate schedule";
          disabled := isActivating || bool_decide (status schedule = COMPLETED);
          isLoading := false; onClick := Activate schedule |}.

(** Actions column: view, edit, pause or activate, delete. *)
Definition actionsCell (isPausing isActivating : bool) (schedule : Schedule)
  : list Control :=
  [ {| title := "View details"; disabled := false; isLoading := false;
       onClick := ViewClick schedule |};
    {| title := "Edit schedule"; disabled := false; isLoading := false;
       onClick := EditClick schedule |};
    toggleControl isPausing isActivating schedule;
    {| title := "Delete schedule"; disabled := false; isLoading := false;
       onClick := DeleteClicked schedule |} ].

End ScheduleList.

(** ** The list component with the common [Button] (imports [api/schedule-api]) *)
Module ScheduleList2.
Import ListCore.

(** Type column: [schedule.cronExpression ? 'Recurring' : 'One-time']. *)
Definition typeCell (schedule : Schedule) : Jsx :=
  if truthy_opt (cronExpression schedule) then Txt "Recurring" else Txt "One-time".

(** The pause/activate control: [isLoading={isPausing}] on the pause
    button; [isLoading={isActivating}] and
    [disabled={schedule.status === 'COMPLETED'}] on the activate button. *)
Definition toggleControl (isPausing isActivating : bool) (schedule : Schedule)
  : Control :=
  if bool_decide (status schedule = ACTIVE)
  then {| title := "Pause schedule"; disabled := false;
          isLoading := isPausing; onClick := Pause schedule |}
  else {| title := "Activate schedule";
          disabled := bool_decide (status schedule = COMPLETED);
          isLoading := isActivating; onClick := Activate schedule |}.

Definition actionsCell (isPausing isActivating : bool) (schedule : Schedule)
  : list Control :=
  [ {| title := "View details"; disabled := false; isLoading := false;
       onClick := ViewClick schedule |};
    {| title := "Edit schedule"; disabled := false; isLoading := false;
       onClick := EditClick schedule |};
    toggleControl isPausing isActivating schedule;
    {| title := "Delete schedule"; disabled := false; isLoading := false;
       onClick := DeleteClicked schedule |} ].

End ScheduleList2.

(** ** The schedule form (printed in the continuation guide) *)
Module ScheduleForm.

(** The numbers the [rowCount] field holds: an integer, or [NaN], which
    [parseInt(value, 10)] in [handleInputChange] returns once the number
    input is cleared. *)
Inductive JsNumber := Int (n : Z) | NaN.

(** [x <= 0] on such a number; every comparison with [NaN] is false. *)
Definition leq_zero (x : JsNumber) : bool :=
  match x with
  | Int n => Z.leb n 0
  | NaN => false
  end.

(** [interface ScheduleFormData] *)
Record ScheduleFormData := mkFormData {
  name : string;
  templateId : string;
  description : option string;
  outputFormat : string;
  rowCount : JsNumber;
  scheduleType : ScheduleType;
  nextRunTime : option string;
  cronExpression : option string;
  active : bool
}.

(** The initial [useState] value of [formData]. *)
Definition initialFormData : ScheduleFormData :=
  {| name := ""; templateId := ""; description := Some "";
     outputFormat := "CSV"; rowCount := Int 100; scheduleType := ONE_TIME;
     nextRunTime := Some ""; cronExpression := Some ""; active := true |}.

(** White space as [String.prototype.trim] sees it: the WhiteSpace and
    LineTerminator code points of the language.  A string holds the UTF-8
    bytes of its text, so a white space code point is one, two or three
    bytes long.

    One byte: U+0020 space, and U+0009 to U+000D (tab, line feed, vertical
    tab, form feed, carriage return). *)
Definition is_space (c : Ascii.ascii) : bool :=
  let n := Ascii.nat_of_ascii c in
  Nat.eqb n 32 || (Nat.leb 9 n && Nat.leb n 13).

(** Two bytes: U+00A0 no-break space, [C2 A0]. *)
Definition is_space2 (c d : Ascii.ascii) : bool :=
  N.eqb (Ascii.N_of_ascii c) 194 && N.eqb (Ascii.N_of_ascii d) 160.

(** Three bytes: U+1680 [E1 9A 80]; U+2000 to U+200A [E2 80 80] to
    [E2 80 8A]; U+2028, U+2029 and U+202F [E2 80 A8], [E2 80 A9], [E2 80 AF];
    U+205F [E2 81 9F]; U+3000 [E3 80 80]; U+FEFF [EF BB BF]. *)
Definition is_space3 (c d e : Ascii.ascii) : bool :=
  let c := Ascii.N_of_ascii c in
  let d := Ascii.N_of_ascii d in
  let e := Ascii.N_of_ascii e in
  (N.eqb c 225 && N.eqb d 154 && N.eqb e 128)
  || (N.eqb c 226 && N.eqb d 128
      && ((N.leb 128 e && N.leb e 138) || N.eqb e 168 || N.eqb e 169 || N.eqb e 175))
  || (N.eqb c 226 && N.eqb d 129 && N.eqb e 159)
  || (N.eqb c 227 && N.eqb d 128 && N.eqb e 128)
  || (N.eqb c 239 && N.eqb d 187 && N.eqb e 191).

(** [!s.trim()]: the string is empty once trimmed, that is, all white space. *)
Fixpoint blank (s : string) : bool :=
  match s with
  | EmptyString => true
  | String c s1 =>
      if is_space c then blank s1
      else
        match s1 with
        | EmptyString => false
        | String d s2 =>
            if is_space2 c d then blank s2
            else
              match s2 with
              | EmptyString => false
              | String e s3 => is_space3 c d e && blank s3
              end
        end
  end.

(** [validateForm]: the [errors] object as the list of its entries, in the
    order the checks run. *)
Definition validationErrors (formData : ScheduleFormData) : list (string * string) :=
  (if blank (name formData) then [("name", "Name is required")] else [])
  ++ (if negb (truthy_string (templateId formData))
      then [("templateId", "Template is required")] else [])
  ++ (if leq_zero (rowCount formData)
      then [("rowCount", "Row count must be greater than 0")] else [])
  ++ (if bool_decide (scheduleType formData = ONE_TIME)
         && negb (truthy_opt (nextRunTime formData))
      then [("nextRunTime", "Run time is required for one-time schedules")] else [])
  ++ (if bool_decide (scheduleType formData = RECURRING)
         && negb (truthy_opt (cronExpression formData))
      then [("cronExpression", "Cron expression is required for recurring schedules")]
      else []).

(** [Object.keys(errors).length === 0] *)
Definition validateForm (formData : ScheduleFormData) : bool :=
  match validationErrors formData with
  | [] => true
  | _ :: _ => false
  end.

(** [schedulePayload]: the form data with [id], [nextRunTime] and
    [cronExpression] overwritten; [routeId] is the [id] route parameter and
    [isEditMode] is [Boolean(id)]. *)
Record SchedulePayload := mkPayload {
  form : ScheduleFormData;
  payloadId : option string;
  payloadNextRunTime : option string;
  payloadCronExpression : option string
}.

Definition schedulePayload (routeId : option string) (formData : ScheduleFormData)
  : SchedulePayload :=
  {| form := formData;
     payloadId := if truthy_opt routeId then routeId else None;
     payloadNextRunTime :=
       if bool_decide (scheduleType formData = ONE_TIME)
       then nextRunTime formData else None;
     payloadCronExpression :=
       if bool_decide (scheduleType formData = RECURRING)
       then cronExpression formData else None |}.

(** [handleSubmit]: nothing is sent unless [validateForm()] holds. *)
Definition handleSubmit (routeId : option string) (formData : ScheduleFormData)
  : option SchedulePayload :=
  if validateForm formData then Some (schedulePayload routeId formData) else None.

End ScheduleForm.

(** ** The scheduling engine

    The Schedule Store, Trigger Evaluator, Job Executor and Lifecycle
    Controller are the Java backend, which is not among the sources: every
    definition of this module is modelled from the specification, and quotes
    the sentence it follows.  Time is a count of clock ticks; identifiers are
    handed out from a counter, which is all that "unique id" asks for. *)
Module Engine.

(** Modelled from the spec: "outputFormat: one of CSV, JSON, XML" of the
    backend's data model. *)
Inductive OutputFormat := CSV | JSON | XML.

(** Modelled from the spec: the backend's error taxonomy, "NotFound ... → 404;
    ValidationError ... → 400; InvalidState ... → 409". *)
Inductive Error := NotFound | ValidationError | InvalidState.

(** Modelled from the spec: what the backend's Job Executor reports for a
    dispatched job, success or "generation error, storage error". *)
Inductive Outcome := Succeeded | Failed (message : string).

(** Modelled from the spec: the backend's persisted Schedule entity (section 3),
    with the two pieces of run state the components share through the store:
    the recorded error message and the in-flight mark of a claimed row. *)
Record Schedule := mkSchedule {
  name : string;
  templateId : string;
  scheduleType : ScheduleType;
  nextRunTime : N;
  cronExpression : option string;
  lastRunTime : option N;
  status : Status;
  outputFormat : OutputFormat;
  rowCount : Z;
  errorMessage : option string;
  inFlight : bool
}.

(** Modelled from the spec: the body of a create or update request to the
    backend. *)
Record Draft := mkDraft {
  d_name : string;
  d_templateId : string;
  d_scheduleType : ScheduleType;
  d_nextRunTime : option N;
  d_cronExpression : option string;
  d_outputFormat : OutputFormat;
  d_rowCount : Z;
  d_paused : bool
}.

(** Modelled from the spec: the hand-overs between the backend's Trigger
    Evaluator and Job Executor, oldest first: which evaluator handed which
    schedule to the executor for which due time, and which reports came back. *)
Inductive Event :=
| Dispatched (evaluator : N) (id : N) (occurrence : N)
| Reported (id : N) (outcome : Outcome).

(** Modelled from the spec: the backend's state.  The Schedule Store is "the
    sole shared mutable state"; beside it, the identifier counter, the clock,
    each evaluator's list of rows found due and not yet claimed, and the log. *)
Record State := mkState {
  store : gmap N Schedule;
  nextId : N;
  now : N;
  pending : gmap N (list N);
  log : list Event
}.

(** Modelled from the spec: the backend before any request, with an empty
    store. *)
Definition initial : State :=
  {| store := ∅; nextId := 0%N; now := 0%N; pending := ∅; log := [] |}.

(** Modelled from the spec: the backend's answer to an operation. *)
Inductive Reply := Ok | Created (id : N) | Err (e : Error).

(** Modelled from the spec: one atomic step of the backend.  Evaluator
    instances are told apart by a number; a scan and each later claim of the
    same evaluator are separate steps, so that the steps of several evaluators
    ("two evaluator instances, e.g., in a multi-process deployment") interleave
    freely. *)
Inductive Op :=
| Tick (d : N)
| Create (d : Draft)
| Activate (id : N)
| Pause (id : N)
| Update (id : N) (d : Draft)
| Delete (id : N)
| Scan (evaluator : N)
| Claim (evaluator : N)
| Report (id : N) (outcome : Outcome).

Definition with_status (v : Status) (s : Schedule) : Schedule :=
  {| name := name s; templateId := templateId s; scheduleType := scheduleType s;
     nextRunTime := nextRunTime s; cronExpression := cronExpression s;
     lastRunTime := lastRunTime s; status := v; outputFormat := outputFormat s;
     rowCount := rowCount s; errorMessage := errorMessage s; inFlight := inFlight s |}.

Definition with_nextRunTime (v : N) (s : Schedule) : Schedule :=
  {| name := name s; templateId := templateId s; scheduleType := scheduleType s;
     nextRunTime := v; cronExpression := cronExpression s;
     lastRunTime := lastRunTime s; status := status s; outputFormat := outputFormat s;
     rowCount := rowCount s; errorMessage := errorMessage s; inFlight := inFlight s |}.

Definition with_lastRunTime (v : option N) (s : Schedule) : Schedule :=
  {| name := name s; templateId := templateId s; scheduleType := scheduleType s;
     nextRunTime := nextRunTime s; cronExpression := cronExpression s;
     lastRunTime := v; status := status s; outputFormat := outputFormat s;
     rowCount := rowCount s; errorMessage := errorMessage s; inFlight := inFlight s |}.

Definition with_errorMessage (v : option string) (s : Schedule) : Schedule :=
  {| name := name s; templateId := templateId s; scheduleType := scheduleType s;
     nextRunTime := nextRunTime s; cronExpression := cronExpression s;
     lastRunTime := lastRunTime s; status := status s; outputFormat := outputFormat s;
     rowCount := rowCount s; errorMessage := v; inFlight := inFlight s |}.

Definition with_inFlight (v : bool) (s : Schedule) : Schedule :=
  {| name := name s; templateId := templateId s; scheduleType := scheduleType s;
     nextRunTime := nextRunTime s; cronExpression := cronExpression s;
     lastRunTime := lastRunTime s; status := status s; outputFormat := outputFormat s;
     rowCount := rowCount s; errorMessage := errorMessage s; inFlight := v |}.

Definition with_store (m : gmap N Schedule) (st : State) : State :=
  {| store := m; nextId := nextId st; now := now st;
     pending := pending st; log := log st |}.

Definition with_pending (p : gmap N (list N)) (st : State) : State :=
  {| store := store st; nextId := nextId st; now := now st;
     pending := p; log := log st |}.

Definition record (e : Event) (st : State) : State :=
  {| store := store st; nextId := nextId st; now := now st;
     pending := pending st; log := log st ++ [e] |}.

Section WithCron.

(** The cron library the backend relies on, taken as a parameter: whether an
    expression parses as a six-field cron expression, and "the next occurrence
    strictly after now". *)
Variable cron_valid : string → bool.
Variable cron_next : string → N → N.

(** Modelled from the spec: the backend's validation of the trigger,
    "missing nextRunTime for ONE_TIME, missing/invalid cronExpression for
    RECURRING", with "the matching trigger field (nextRunTime xor
    cronExpression)" supplied and the other one cleared.  That a one-time run
    lies in the future is not checked: the scenario with a past timestamp
    creates a schedule that is "immediately eligible". *)
Definition valid_trigger (d : Draft) : bool :=
  match d_scheduleType d with
  | ONE_TIME =>
      bool_decide (is_Some (d_nextRunTime d))
      && bool_decide (d_cronExpression d = None)
  | RECURRING =>
      match d_cronExpression d with
      | Some c => cron_valid c && bool_decide (d_nextRunTime d = None)
      | None => false
      end
  end.

(** Modelled from the spec: the backend's "ValidationError (missing
    name/templateId, non-positive rowCount, ...)". *)
Definition valid_draft (d : Draft) : bool :=
  truthy_string (d_name d) && truthy_string (d_templateId d)
  && Z.ltb 0 (d_rowCount d) && valid_trigger d.

(** Modelled from the spec: the backend's first run time, "nextRunTime:
    required ... for ONE_TIME; computed from cronExpression for RECURRING". *)
Definition first_run (d : Draft) (t : N) : N :=
  match d_cronExpression d with
  | Some c => cron_next c t
  | None => default t (d_nextRunTime d)
  end.

(** Modelled from the spec: the Lifecycle Controller's "create(draft) → new
    Schedule, status=ACTIVE unless draft requests PAUSED"; "validation is
    enforced before persistence". *)
Definition create (d : Draft) (st : State) : State * Reply :=
  if valid_draft d then
    let s := {| name := d_name d; templateId := d_templateId d;
                scheduleType := d_scheduleType d;
                nextRunTime := first_run d (now st);
                cronExpression := d_cronExpression d;
                lastRunTime := None;
                status := if d_paused d then PAUSED else ACTIVE;
                outputFormat := d_outputFormat d; rowCount := d_rowCount d;
                errorMessage := None; inFlight := false |} in
    ({| store := <[nextId st := s]> (store st); nextId := N.succ (nextId st);
        now := now st; pending := pending st; log := log st |},
     Created (nextId st))
  else (st, Err ValidationError).

(** Modelled from the spec: the backend's recomputed next run time, the next
    cron occurrence after now for a recurring schedule and, for a one-time
    one, no earlier than now ("a recomputed nextRunTime ≥ now"). *)
Definition recompute (s : Schedule) (t : N) : N :=
  match cronExpression s with
  | Some c => cron_next c t
  | None => N.max (nextRunTime s) t
  end.

(** Modelled from the spec: the Lifecycle Controller's "activate(id): PAUSED →
    ACTIVE (recomputes nextRunTime if stale); ERROR → ACTIVE (clears error,
    recomputes nextRunTime); no-op if already ACTIVE; fails with InvalidState
    if COMPLETED." *)
Definition activate (id : N) (st : State) : State * Reply :=
  match store st !! id with
  | None => (st, Err NotFound)
  | Some s =>
      match status s with
      | ACTIVE => (st, Ok)
      | PAUSED =>
          let s1 := if N.ltb (nextRunTime s) (now st)
                    then with_nextRunTime (recompute s (now st)) s else s in
          (with_store (<[id := with_status ACTIVE s1]> (store st)) st, Ok)
      | ERROR =>
          let s1 := with_nextRunTime (recompute s (now st))
                      (with_errorMessage None s) in
          (with_store (<[id := with_status ACTIVE s1]> (store st)) st, Ok)
      | COMPLETED => (st, Err InvalidState)
      end
  end.

(** Modelled from the spec: the Lifecycle Controller's "pause(id): ACTIVE →
    PAUSED; fails with InvalidState for COMPLETED or already-PAUSED"; the
    state machine has no edge from ERROR to PAUSED. *)
Definition pause (id : N) (st : State) : State * Reply :=
  match store st !! id with
  | None => (st, Err NotFound)
  | Some s =>
      match status s with
      | ACTIVE => (with_store (<[id := with_status PAUSED s]> (store st)) st, Ok)
      | _ => (st, Err InvalidState)
      end
  end.

(** Modelled from the spec: the Lifecycle Controller's "update(id, patch):
    allowed only when not currently being executed; changing scheduleType
    requires supplying the matching trigger field (nextRunTime xor
    cronExpression) and clearing the other."  The body of
    [PUT /schedules/{id}] is a whole draft, as the form sends it; run state
    is kept. *)
Definition update (id : N) (d : Draft) (st : State) : State * Reply :=
  match store st !! id with
  | None => (st, Err NotFound)
  | Some s =>
      if inFlight s then (st, Err InvalidState)
      else if valid_draft d then
        let s1 := {| name := d_name d; templateId := d_templateId d;
                     scheduleType := d_scheduleType d;
                     nextRunTime := first_run d (now st);
                     cronExpression := d_cronExpression d;
                     lastRunTime := lastRunTime s; status := status s;
                     outputFormat := d_outputFormat d; rowCount := d_rowCount d;
                     errorMessage := errorMessage s; inFlight := inFlight s |} in
        (with_store (<[id := s1]> (store st)) st, Ok)
      else (st, Err ValidationError)
  end.

(** Modelled from the spec: the Lifecycle Controller's "delete(id): removes
    the schedule and cancels any pending trigger claim; fails with NotFound if
    absent." *)
Definition delete_schedule (id : N) (st : State) : State * Reply :=
  match store st !! id with
  | None => (st, Err NotFound)
  | Some _ =>
      (with_pending (filter (λ j, j ≠ id) <$> pending st)
         (with_store (delete id (store st)) st), Ok)
  end.

(** Modelled from the spec: the Trigger Evaluator's test, "scan all schedules
    with status=ACTIVE whose nextRunTime ≤ now"; "a claimed-but-not-yet-run
    schedule is marked in-flight to exclude it from subsequent scans". *)
Definition due (t : N) (s : Schedule) : bool :=
  bool_decide (status s = ACTIVE) && N.leb (nextRunTime s) t && negb (inFlight s).

(** Modelled from the spec: the Trigger Evaluator's scan; the evaluator reads
    the store and keeps the identifiers of the rows it found due. *)
Definition scan (evaluator : N) (st : State) : State :=
  with_pending
    (<[evaluator := (map_to_list (filter (λ kv, due (now st) kv.2 = true) (store st))).*1]>
       (pending st)) st.

(** Modelled from the spec: the Trigger Evaluator's "claim/lock step on the
    schedule row before dispatch", "transactional against the Store".  The
    evaluator takes the next identifier it found, and in one step checks
    that the row is still due and unclaimed, marks it in-flight and hands it
    to the executor. *)
Definition claim (evaluator : N) (st : State) : State :=
  match pending st !! evaluator with
  | Some (id :: rest) =>
      let st1 := with_pending (<[evaluator := rest]> (pending st)) st in
      match store st !! id with
      | Some s =>
          if due (now st) s
          then record (Dispatched evaluator id (nextRunTime s))
                 (with_store (<[id := with_inFlight true s]> (store st)) st1)
          else st1
      | None => st1
      end
  | _ => st
  end.

(** Modelled from the spec: the Job Executor's "On success: set
    lastRunTime=now, status = COMPLETED (ONE_TIME) or remains ACTIVE with
    nextRunTime recomputed (RECURRING)." *)
Definition on_success (t : N) (s : Schedule) : Schedule :=
  let s1 := with_inFlight false (with_lastRunTime (Some t) s) in
  match scheduleType s with
  | ONE_TIME => with_status COMPLETED s1
  | RECURRING =>
      match cronExpression s with
      | Some c => with_nextRunTime (cron_next c t) s1
      | None => s1
      end
  end.

(** Modelled from the spec: the Job Executor's "On failure: set status=ERROR,
    record an error message, leave nextRunTime unchanged". *)
Definition on_failure (message : string) (s : Schedule) : Schedule :=
  with_inFlight false (with_errorMessage (Some message) (with_status ERROR s)).

(** Modelled from the spec: the Job Executor's report for a claimed row, which
    ends its in-flight mark; a report for a row that is gone or not in flight
    has nothing to write. *)
Definition report (id : N) (o : Outcome) (st : State) : State :=
  match store st !! id with
  | Some s =>
      if inFlight s then
        let s1 := match o with
                  | Succeeded => on_success (now st) s
                  | Failed m => on_failure m s
                  end in
        record (Reported id o) (with_store (<[id := s1]> (store st)) st)
      else st
  | None => st
  end.

(** Modelled from the spec: the passing of time between the backend's steps. *)
Definition tick (d : N) (st : State) : State :=
  {| store := store st; nextId := nextId st; now := (now st + d)%N;
     pending := pending st; log := log st |}.

(** Modelled from the spec: the backend's state and answer after one step. *)
Definition step (op : Op) (st : State) : State * Reply :=
  match op with
  | Tick d => (tick d st, Ok)
  | Create d => create d st
  | Activate id => activate id st
  | Pause id => pause id st
  | Update id d => update id d st
  | Delete id => delete_schedule id st
  | Scan e => (scan e st, Ok)
  | Claim e => (claim e st, Ok)
  | Report id o => (report id o st, Ok)
  end.

(** Modelled from the spec: the backend's state after a sequence of steps, in
    whatever order the evaluators, the executor and the controller took them. *)
Fixpoint run (ops : list Op) (st : State) : State :=
  match ops with
  | [] => st
  | op :: ops' => run ops' (step op st).1
  end.

End WithCron.

(** How often the log says a schedule was handed to the executor. *)
Fixpoint dispatches (id : N) (l : list Event) : nat :=
  match l with
  | [] => 0
  | Dispatched _ j _ :: l' => (if bool_decide (j = id) then 1 else 0) + dispatches id l'
  | Reported _ _ :: l' => dispatches id l'
  end.

(** Replaying a log against the set of jobs handed out and not yet reported:
    the replay fails when a schedule is dispatched while it is in that set. *)
Fixpoint replay (l : list Event) (out : gset N) : option (gset N) :=
  match l with
  | [] => Some out
  | Dispatched _ id _ :: l' =>
      if decide (id ∈ out) then None else replay l' ({[id]} ∪ out)
  | Reported id _ :: l' => replay l' (out ∖ {[id]})
  end.

End Engine.

(** ** Invariants of the engine *)
Module EngineInv.
Import Engine.

(** The trigger field matches the type: a cron expression is carried exactly
    by recurring schedules. *)
Definition well_triggered (s : Schedule) : Prop :=
  is_Some (cronExpression s) ↔ scheduleType s = RECURRING.

(** What a single step may do to the store, the identifier counter and the
    log; the clock and the evaluators' lists are left out. *)
Inductive footprint (st st' : State) : Prop :=
| fp_quiet :
    store st' = store st → nextId st' = nextId st → log st' = log st →
    footprint st st'
| fp_created (s : Schedule) :
    store st' = <[nextId st := s]> (store st) →
    nextId st' = N.succ (nextId st) → log st' = log st →
    inFlight s = false → status s ≠ COMPLETED → well_triggered s →
    footprint st st'
| fp_edited (id : N) (s s' : Schedule) :
    store st !! id = Some s → store st' = <[id := s']> (store st) →
    nextId st' = nextId st → log st' = log st →
    inFlight s' = inFlight s →
    (status s' = COMPLETED ↔ status s = COMPLETED) →
    (well_triggered s → well_triggered s') →
    footprint st st'
| fp_deleted (id : N) :
    store st' = delete id (store st) →
    nextId st' = nextId st → log st' = log st →
    footprint st st'
| fp_dispatched (e id : N) (s : Schedule) :
    store st !! id = Some s → status s = ACTIVE → inFlight s = false →
    store st' = <[id := with_inFlight true s]> (store st) →
    nextId st' = nextId st →
    log st' = log st ++ [Dispatched e id (nextRunTime s)] →
    footprint st st'
| fp_reported (id : N) (o : Outcome) (s s' : Schedule) :
    store st !! id = Some s → inFlight s = true →
    store st' = <[id := s']> (store st) →
    nextId st' = nextId st →
    log st' = log st ++ [Reported id o] →
    inFlight s' = false →
    scheduleType s' = scheduleType s → cronExpression s' = cronExpression s →
    footprint st st'.

(** The invariant of the reachable states. *)
Record invariant (st : State) : Prop := mkInvariant {
  (** identifiers in use were handed out by the counter *)
  inv_keys : ∀ id s, store st !! id = Some s → (id < nextId st)%N;
  (** every stored schedule carries the trigger field of its type *)
  inv_triggers : ∀ id s, store st !! id = Some s → well_triggered s;
  (** a completed schedule is not in flight *)
  inv_completed : ∀ id s,
    store st !! id = Some s → status s = COMPLETED → inFlight s = false;
  (** the log replays, and the rows marked in-flight are the stored
      schedules whose last dispatch has not been reported *)
  inv_log : ∃ out,
    replay (log st) ∅ = Some out
    ∧ (∀ id, id ∈ out → (id < nextId st)%N)
    ∧ (∀ id s, store st !! id = Some s → (inFlight s = true ↔ id ∈ out))
}.

(** A schedule that will not run again: its identifier was handed out, and
    its row is gone or completed and idle. *)
Definition retired (id : N) (st : State) : Prop :=
  (id < nextId st)%N
  ∧ ∀ s, store st !! id = Some s → status s = COMPLETED ∧ inFlight s = false.

End EngineInv.

(** ** The order in which a schedule's due times are handed over *)
Module EngineOrder.
Import Engine.






End EngineOrder.

(** ** Sample data for the worked examples *)
Module Samples.

(** A stand-in for the cron library: any non-empty expression is accepted
    and fires at every tick. *)
Definition every_tick_valid (c : string) : bool := truthy_string c.
Definition every_tick_next (c : string) (t : N) : N := N.succ t.

Definition report_at_five : Engine.Draft :=
  {| Engine.d_name := "Quarter close"; Engine.d_templateId := "T1";
     Engine.d_scheduleType := ONE_TIME; Engine.d_nextRunTime := Some 5%N;
     Engine.d_cronExpression := None; Engine.d_outputFormat := Engine.CSV;
     Engine.d_rowCount := 100; Engine.d_paused := false |}.

Definition nightly : Engine.Draft :=
  {| Engine.d_name := "Nightly"; Engine.d_templateId := "T1";
     Engine.d_scheduleType := RECURRING; Engine.d_nextRunTime := None;
     Engine.d_cronExpression := Some "0 0 0 * * ?";
     Engine.d_outputFormat := Engine.CSV;
     Engine.d_rowCount := 100; Engine.d_paused := false |}.

(** A one-time schedule is created, falls due and is claimed by evaluator 0. *)
Definition one_time_claimed : list Engine.Op :=
  [Engine.Create report_at_five; Engine.Tick 5; Engine.Scan 0; Engine.Claim 0].

(** ... and its job succeeds. *)
Definition one_time_done : list Engine.Op :=
  one_time_claimed ++ [Engine.Report 0 Engine.Succeeded].

(** What is tried on it afterwards. *)
Definition afterwards : list Engine.Op :=
  [Engine.Activate 0; Engine.Tick 3; Engine.Scan 1; Engine.Claim 1;
   Engine.Pause 0; Engine.Update 0 report_at_five; Engine.Scan 0; Engine.Claim 0].

(** Two evaluators scan the same due recurring schedule before either claims
    it; after the job's report and a later tick, evaluator 1 claims the next
    occurrence. *)
Definition two_evaluators : list Engine.Op :=
  [Engine.Create nightly; Engine.Tick 1;
   Engine.Scan 0; Engine.Scan 1; Engine.Claim 0; Engine.Claim 1;
   Engine.Report 0 Engine.Succeeded; Engine.Tick 5;
   Engine.Scan 1; Engine.Claim 1].


Definition completed_in_list : Schedule :=
  mkSchedule "0" "Quarter close" "T1" "Customers" COMPLETED ONE_TIME
    "2025-03-31T18:00:00" (Some "2025-03-31T18:00:02") None "CSV" 100.

End Samples.

(** ** JavaScript objects and arrays, as far as the selectors use them *)
Module JsRuntime.

(** The properties an object literal inherits from [Object.prototype]; each of
    them is a function or, for [__proto__], the prototype itself, hence truthy. *)
Definition objectPrototypeKeys : list string :=
  ["constructor"; "hasOwnProperty"; "isPrototypeOf"; "propertyIsEnumerable";
   "toLocaleString"; "toString"; "valueOf"; "__proto__";
   "__defineGetter__"; "__defineSetter__"; "__lookupGetter__"; "__lookupSetter__"].

Definition inherited (key : string) : bool :=
  bool_decide (key ∈ objectPrototypeKeys).

(** The own property [key] of an object kept as the list of its own
    properties in insertion order. *)
Fixpoint own {V : Type} (key : string) (props : list (string * V)) : option V :=
  match props with
  | [] => None
  | (k, v) :: props' => if String.eqb k key then Some v else own key props'
  end.

(** Mutating the value stored under an own property, in place. *)
Fixpoint alterOwn {V : Type} (key : string) (f : V → V) (props : list (string * V))
  : list (string * V) :=
  match props with
  | [] => []
  | (k, v) :: props' =>
      if String.eqb k key then (k, f v) :: props'
      else (k, v) :: alterOwn key f props'
  end.

(** What [obj[key]] evaluates to: the own property, else the inherited one. *)
Inductive Lookup (V : Type) :=
| Own (v : V)
| Inherited
| Undefined.
Arguments Own {V} v.
Arguments Inherited {V}.
Arguments Undefined {V}.

Definition get {V : Type} (key : string) (props : list (string * V)) : Lookup V :=
  match own key props with
  | Some v => Own v
  | None => if inherited key then Inherited else Undefined
  end.

(** [Array.prototype.sort(compareFn)] is stable: an element goes before the
    first later element it does not compare greater than.  For a consistent
    comparator this is the order every engine produces. *)
Fixpoint insertBy {A : Type} (compareFn : A → A → Z) (x : A) (l : list A) : list A :=
  match l with
  | [] => [x]
  | y :: l' =>
      if Z.leb (compareFn x y) 0 then x :: y :: l'
      else y :: insertBy compareFn x l'
  end.

Fixpoint sortBy {A : Type} (compareFn : A → A → Z) (l : list A) : list A :=
  match l with
  | [] => []
  | x :: l' => insertBy compareFn x (sortBy compareFn l')
  end.

Definition digit (c : Ascii.ascii) : option N :=
  let n := Ascii.N_of_ascii c in
  if N.leb 48 n && N.leb n 57 then Some (n - 48)%N else None.

Fixpoint digits (s : string) (acc : N) : option N :=
  match s with
  | EmptyString => Some acc
  | String c s' =>
      match digit c with
      | Some d => digits s' (10 * acc + d)%N
      | None => None
      end
  end.

(** An array index: the canonical decimal spelling of an integer between 0
    and 2^32 - 2. *)
Definition arrayIndex (key : string) : option N :=
  match key with
  | EmptyString => None
  | String c rest =>
      if N.eqb (Ascii.N_of_ascii c) 48
      then (if truthy_string rest then None else Some 0%N)
      else match digits key 0 with
           | Some n => if N.leb n 4294967294 then Some n else None
           | None => None
           end
  end.

(** The order in which [Object.values] and [Object.entries] enumerate own
    properties: array indices in ascending order, then the other keys in
    insertion order. *)
Definition ownEntries {V : Type} (props : list (string * V)) : list (string * V) :=
  (sortBy (λ a b : N * (string * V), Z.of_N a.1 - Z.of_N b.1)%Z
     (omap (λ kv, (λ n, (n, kv)) <$> arrayIndex kv.1) props)).*2
  ++ filter (λ kv, arrayIndex kv.1 = None) props.

Section Grouping.
Context {D G : Type}.

(** What the two selectors' grouping loops differ in: the category a data
    type falls under, the value stored under a new category, and the push of
    the data type's option onto a stored value. *)
Variable categoryOf : D → string.
Variable create : string → G.
Variable push : D → G → G.

(** The body of the [forEach]:
    [if (!groupedOptions[category]) { groupedOptions[category] = ...; }]
    followed by the push onto [groupedOptions[category]]; [None] is the
    [TypeError] thrown when [groupedOptions[category]] is an inherited
    property, which has nothing to push onto. *)
Definition groupStep (groupedOptions : list (string * G)) (dataType : D)
  : option (list (string * G)) :=
  let category := categoryOf dataType in
  let groupedOptions1 :=
    match get category groupedOptions with
    | Undefined => groupedOptions ++ [(category, create category)]
    | _ => groupedOptions
    end in
  match own category groupedOptions1 with
  | Some _ => Some (alterOwn category (push dataType) groupedOptions1)
  | None => None
  end.

Fixpoint groupLoop (groupedOptions : list (string * G)) (dataTypes : list D)
  : option (list (string * G)) :=
  match dataTypes with
  | [] => Some groupedOptions
  | dataType :: rest =>
      match groupStep groupedOptions dataType with
      | Some groupedOptions' => groupLoop groupedOptions' rest
      | None => None
      end
  end.

End Grouping.

End JsRuntime.

(** ** The data type selector that loads its own data ([DataTypeSelector.tsx]) *)
Module DataTypeSelector.
Import JsRuntime.

(** [interface DataTypeMetadata] *)
Record DataTypeMetadata := mkMetadata {
  type : string;
  displayName : string;
  category : string;
  description : string;
  constraintsMetadata : list (string * string)
}.

(** An entry of [DataTypeOptionGroup.options]. *)
Module Opt.
Record t := mk { value : string; label : string }.
End Opt.

(** [interface DataTypeOptionGroup] *)
Record DataTypeOptionGroup := mkGroup {
  label : string;
  options : list Opt.t
}.

(** [dataType.category || 'Other'] *)
Definition categoryOf (dataType : DataTypeMetadata) : string :=
  if truthy_string (category dataType) then category dataType else "Other".

(** [{ value: dataType.type, label: dataType.displayName }] *)
Definition optionOf (dataType : DataTypeMetadata) : Opt.t :=
  {| Opt.value := type dataType; Opt.label := displayName dataType |}.

(** [{ label: category, options: [] }] *)
Definition emptyGroup (cat : string) : DataTypeOptionGroup :=
  {| label := cat; options := [] |}.

(** [groupedOptions[category].options.push({...})] *)
Definition pushOption (dataType : DataTypeMetadata) (g : DataTypeOptionGroup)
  : DataTypeOptionGroup :=
  {| label := label g; options := options g ++ [optionOf dataType] |}.

Section WithLocale.

(** [String.prototype.localeCompare] in the browser's locale. *)
Variable localeCompare : string → string → Z.

(** [group.options.sort((a, b) => a.label.localeCompare(b.label))] *)
Definition sortOptions (g : DataTypeOptionGroup) : DataTypeOptionGroup :=
  {| label := label g;
     options := sortBy (λ a b, localeCompare (Opt.label a) (Opt.label b)) (options g) |}.

(** The groups computed by the effect: group by category, sort each group's
    options, sort the groups by label; [None] when the loop throws. *)
Definition sortedGroups (dataTypes : list DataTypeMetadata)
  : option (list DataTypeOptionGroup) :=
  match groupLoop categoryOf emptyGroup pushOption [] dataTypes with
  | Some groupedOptions =>
      Some (sortBy (λ a b, localeCompare (label a) (label b))
              (sortOptions <$> (ownEntries groupedOptions).*2))
  | None => None
  end.

(** The two [useState] cells. *)
Record State := mkState {
  dataTypeOptions : list DataTypeOptionGroup;
  selectedTypeMetadata : option DataTypeMetadata
}.

Definition initialState : State :=
  {| dataTypeOptions := []; selectedTypeMetadata := None |}.

(** Calls of the props [onChange] and [onMetadataChange]. *)
Inductive Call :=
| OnChange (selected : string)
| OnMetadataChange (metadata : option DataTypeMetadata).

(** [dataTypesData.data.find(dataType => dataType.type === value)] *)
Definition findType (dataTypes : list DataTypeMetadata) (selected : string)
  : option DataTypeMetadata :=
  List.find (λ dataType, String.eqb (type dataType) selected) dataTypes.

(** [if (onMetadataChange) { onMetadataChange(selectedType || null); }];
    [hasOnMetadataChange] says whether the optional prop was passed. *)
Definition notify (hasOnMetadataChange : bool) (metadata : option DataTypeMetadata)
  : list Call :=
  if hasOnMetadataChange then [OnMetadataChange metadata] else [].

(** The [useEffect] on [[dataTypesData, value, onMetadataChange]]; [data] is
    [dataTypesData?.data].  [None] when the grouping loop throws. *)
Definition optionsEffect (data : option (list DataTypeMetadata)) (value : string)
    (hasOnMetadataChange : bool) (st : State) : option (State * list Call) :=
  match data with
  | Some dataTypes =>
      match sortedGroups dataTypes with
      | Some groups =>
          if truthy_string value
          then Some ({| dataTypeOptions := groups;
                        selectedTypeMetadata := findType dataTypes value |},
                     notify hasOnMetadataChange (findType dataTypes value))
          else Some ({| dataTypeOptions := groups;
                        selectedTypeMetadata := selectedTypeMetadata st |}, [])
      | None => None
      end
  | None => Some (st, [])
  end.

(** [handleTypeChange] *)
Definition handleTypeChange (data : option (list DataTypeMetadata))
    (selectedValue : string) (hasOnMetadataChange : bool) (st : State)
  : State * list Call :=
  match data with
  | Some dataTypes =>
      ({| dataTypeOptions := dataTypeOptions st;
          selectedTypeMetadata := findType dataTypes selectedValue |},
       OnChange selectedValue
         :: notify hasOnMetadataChange (findType dataTypes selectedValue))
  | None => (st, [OnChange selectedValue])
  end.

(** [showDetails && selectedTypeMetadata &&]: whether the details card is
    rendered. *)
Definition detailsShown (showDetails : bool) (st : State) : bool :=
  showDetails && bool_decide (is_Some (selectedTypeMetadata st)).

End WithLocale.

End DataTypeSelector.

(** ** The data type selector that is handed its data ([DataTypeSelector2.tsx]) *)
Module DataTypeSelector2.
Import JsRuntime.

(** [interface DataTypeOption] *)
Record DataTypeOption := mkOption {
  value : string;
  label : string;
  category : string
}.

(** An entry [[key, dataType]] of [Object.entries(dataTypes)]. *)
Definition Entry : Type := string * DataTypeSelector.DataTypeMetadata.

(** [dataType.category || 'Other'] *)
Definition categoryOf (entry : Entry) : string :=
  DataTypeSelector.categoryOf entry.2.

(** [{ value: key, label: dataType.displayName || key, category }] *)
Definition optionOf (entry : Entry) : DataTypeOption :=
  {| value := entry.1;
     label := if truthy_string (DataTypeSelector.displayName entry.2)
              then DataTypeSelector.displayName entry.2 else entry.1;
     category := categoryOf entry |}.

Section WithLocale.

Variable localeCompare : string → string → Z.

(** [getDataTypeOptions]; [dataTypes] is [None] for [null], and otherwise the
    entries of the object in enumeration order.  The groups are pairs of
    [label] and [options]; [None] when the loop throws. *)
Definition getDataTypeOptions (dataTypes : option (list Entry))
  : option (list (string * list DataTypeOption)) :=
  match dataTypes with
  | None => Some []
  | Some entries =>
      match groupLoop categoryOf (λ _, []) (λ entry group, group ++ [optionOf entry])
              [] entries with
      | Some groupedOptions =>
          Some (sortBy (λ a b, localeCompare a.1 b.1)
                  (ownEntries
                     (prod_map (λ key : string, key)
                        (sortBy (λ a b, localeCompare (label a) (label b)))
                      <$> groupedOptions)))
      | None => None
      end
  end.

(** [handleTypeChange]: [onChange(value)], then the details are opened when
    [showDetails] is on.  The result is the new [isDetailsOpen] and the value
    passed to [onChange]. *)
Definition handleTypeChange (showDetails : bool) (selected : string)
    (isDetailsOpen : bool) : bool * string :=
  (if showDetails then true else isDetailsOpen, selected).

End WithLocale.

End DataTypeSelector2.

(** ** The list component: the error banner and event traces *)
Module ListView.
Import ListCore.

(** [a || b] on two error messages ([null] or a string). *)
Definition or_else (a b : option string) : option string :=
  if truthy_opt a then a else b.

(** [error || activateError || pauseError || deleteError] *)
Definition aggregatedError (error activateError pauseError deleteError : option string)
  : option string :=
  or_else (or_else (or_else error activateError) pauseError) deleteError.

(** [{aggregatedError && (<Alert type="error">{aggregatedError}</Alert>)}]:
    the text of the alert, when one is rendered. *)
Definition errorAlert (error activateError pauseError deleteError : option string)
  : option string :=
  let e := aggregatedError error activateError pauseError deleteError in
  if truthy_opt e then e else None.

(** The state after a sequence of gestures. *)
Fixpoint handleAll (events : list Event) (st : State) : State :=
  match events with
  | [] => st
  | e :: events' => handleAll events' (handle e st)
  end.

End ListView.

(** ** The schedule form: loading a schedule and the cron presets *)
Module ScheduleFormEdit.
Import ScheduleForm.

(** The body of [GET /schedules/{id}] as the load effect reads it. *)
Record LoadedSchedule := mkLoaded {
  l_name : string;
  l_templateId : string;
  l_description : option string;
  l_outputFormat : string;
  l_rowCount : JsNumber;
  l_nextRunTime : option string;
  l_cronExpression : option string;
  l_active : bool
}.

Section WithDate.

(** [new Date(s).toISOString().slice(0, 16)]; [None] stands for the
    [RangeError] that [toISOString] throws on an invalid date. *)
Variable toInputValue : string → option string.

(** The object passed to [setFormData] by the load effect; [None] when the
    date conversion throws. *)
Definition loadedFormData (schedule : LoadedSchedule) : option ScheduleFormData :=
  match
    (if truthy_opt (l_nextRunTime schedule)
     then toInputValue (default "" (l_nextRunTime schedule))
     else Some "")
  with
  | Some runTime =>
      Some {| name := l_name schedule;
              templateId := l_templateId schedule;
              description := Some (if truthy_opt (l_description schedule)
                                   then default "" (l_description schedule) else "");
              outputFormat := l_outputFormat schedule;
              rowCount := l_rowCount schedule;
              scheduleType := if truthy_opt (l_cronExpression schedule)
                              then RECURRING else ONE_TIME;
              nextRunTime := Some runTime;
              cronExpression := Some (if truthy_opt (l_cronExpression schedule)
                                      then default "" (l_cronExpression schedule)
                                      else "");
              active := l_active schedule |}
  | None => None
  end.

End WithDate.

(** [cronPresets], as pairs of [label] and [value]. *)
Definition cronPresets : list (string * string) :=
  [("Every day at midnight", "0 0 0 * * ?");
   ("Every hour", "0 0 * * * ?");
   ("Every Monday at 9am", "0 0 9 ? * MON");
   ("First day of month at 2am", "0 0 2 1 * ?")].

(** [handleCronPresetSelect]: [value] is [e.target.value]. *)
Definition handleCronPresetSelect (value : string) (prev : ScheduleFormData)
  : ScheduleFormData :=
  if truthy_string value
  then {| name := name prev; templateId := templateId prev;
          description := description prev; outputFormat := outputFormat prev;
          rowCount := rowCount prev; scheduleType := scheduleType prev;
          nextRunTime := nextRunTime prev; cronExpression := Some value;
          active := active prev |}
  else prev.

End ScheduleFormEdit.

(** ** What the grouping loops keep true *)
Module GroupingInv.
Import JsRuntime.

Section Inv.
Context {D G O : Type}.
Variable categoryOf : D → string.
Variable opts : G → list O.
Variable mk : D → O.
Variable Q : string → G → Prop.

(** After the loop has seen [seen]: the keys are distinct and none is
    inherited, every seen data type's category is a key, the value under a
    key holds the options of the seen data types of that category in the
    order seen, and all values together hold every option once. *)
Record grouped (acc : list (string * G)) (seen : list D) : Prop := mkGrouped {
  grouped_keys : NoDup acc.*1;
  grouped_own : ∀ k, k ∈ acc.*1 → inherited k = false;
  grouped_cover : ∀ d, d ∈ seen → categoryOf d ∈ acc.*1;
  grouped_opts : ∀ k g, (k, g) ∈ acc →
    opts g = mk <$> filter (λ d, categoryOf d = k) seen ∧ opts g ≠ [] ∧ Q k g;
  grouped_all : concat (opts <$> acc.*2) ≡ₚ mk <$> seen
}.
End Inv.
End GroupingInv.

(** ** Sample data for the selectors and the form *)
Module SelectorSamples.

(** A stand-in for [localeCompare]: the order of the code units. *)
Definition codeUnitCompare (a b : string) : Z :=
  match String.compare a b with
  | Lt => (-1)%Z
  | Eq => 0%Z
  | Gt => 1%Z
  end.

Definition firstName : DataTypeSelector.DataTypeMetadata :=
  DataTypeSelector.mkMetadata "firstName" "First Name" "Person"
    "A given name" [("gender", "male or female")].

Definition lastName : DataTypeSelector.DataTypeMetadata :=
  DataTypeSelector.mkMetadata "lastName" "Last Name" "Person" "A family name" [].

Definition uuid : DataTypeSelector.DataTypeMetadata :=
  DataTypeSelector.mkMetadata "uuid" "UUID" "" "A random identifier" [].

Definition dataTypes : list DataTypeSelector.DataTypeMetadata :=
  [lastName; uuid; firstName].

Definition groups : list DataTypeSelector.DataTypeOptionGroup :=
  [DataTypeSelector.mkGroup "Other" [DataTypeSelector.Opt.mk "uuid" "UUID"];
   DataTypeSelector.mkGroup "Person"
     [DataTypeSelector.Opt.mk "firstName" "First Name";
      DataTypeSelector.Opt.mk "lastName" "Last Name"]].

Definition entries : list DataTypeSelector2.Entry :=
  [("lastName", lastName); ("uuid", uuid); ("firstName", firstName)].

Definition groups2 : list (string * list DataTypeSelector2.DataTypeOption) :=
  [("Other", [DataTypeSelector2.mkOption "uuid" "UUID" "Other"]);
   ("Person",
    [DataTypeSelector2.mkOption "firstName" "First Name" "Person";
     DataTypeSelector2.mkOption "lastName" "Last Name" "Person"])].

Definition nightlyForm : ScheduleForm.ScheduleFormData :=
  ScheduleForm.mkFormData "Nightly" "T1" (Some "") "CSV" (ScheduleForm.Int 100) RECURRING
    (Some "2025-01-01T00:00") (Some "0 0 0 * * ?") true.

(** The nightly form after the Row Count field was cleared. *)
Definition clearedRowCountForm : ScheduleForm.ScheduleFormData :=
  ScheduleForm.mkFormData "Nightly" "T1" (Some "") "CSV" ScheduleForm.NaN RECURRING
    (Some "2025-01-01T00:00") (Some "0 0 0 * * ?") true.

(** U+00A0, the no-break space, as its two bytes. *)
Definition noBreakSpace : string :=
  String (Ascii.ascii_of_N 194) (String (Ascii.ascii_of_N 160) "").

(** The nightly form with a name that is a space, a no-break space and a
    tab. *)
Definition spaceNamedForm : ScheduleForm.ScheduleFormData :=
  ScheduleForm.mkFormData (" " +:+ noBreakSpace +:+ String (Ascii.ascii_of_N 9) "")
    "T1" (Some "") "CSV" (ScheduleForm.Int 100) RECURRING
    (Some "2025-01-01T00:00") (Some "0 0 0 * * ?") true.

End SelectorSamples.

(** * Properties of the list components *)

Section ListFacts.
Import ListCore.

Lemma status_str_inj : Inj (=) (=) status_str.
Proof. intros [] []; simpl; congruence. Qed.

Lemma scheduleType_str_inj : Inj (=) (=) scheduleType_str.
Proof. intros [] []; simpl; congruence. Qed.

Lemma truthy_string_nonempty (s : string) : truthy_string s = true ↔ s ≠ "".
Proof. destruct s; simpl; split; congruence. Qed.

Lemma truthy_opt_Some (o : option string) :
  truthy_opt o = true ↔ ∃ s, o = Some s ∧ s ≠ "".
Proof.
  destruct o as [s|]; simpl; split.
  - intros H. exists s. split; [reflexivity | by apply truthy_string_nonempty].
  - intros (s' & Hs & Hne). injection Hs as <-. by apply truthy_string_nonempty.
  - discriminate.
  - intros (s & Hs & _). discriminate.
Qed.

Lemma num_or_zero (n : Z) : num_or n 0 = n.
Proof. unfold num_or. destruct (Z.eqb_spec n 0); congruence. Qed.

Lemma num_or_one (n : Z) : num_or n 1 = if decide (n = 0%Z) then 1%Z else n.
Proof.
  unfold num_or. destruct (Z.eqb_spec n 0); case_decide; congruence.
Qed.

(** Every status has a badge colour of its own case in the [switch]; none
    falls through to [default]. *)
Lemma badge_color_of_status (s : Status) :
  getStatusBadgeColor (status_str s)
  = match s with
    | ACTIVE => "success"
    | PAUSED => "warning"
    | COMPLETED => "info"
    | ERROR => "danger"
    end.
Proof. by destruct s. Qed.

Lemma formatDate_cases (x : string) :
  (x = "" ∧ formatDate x = Literal "N/A")
  ∨ (x ≠ "" ∧ formatDate x = DateToLocaleString x).
Proof. destruct x; [left | right]; done. Qed.

End ListFacts.

(** C1. Every schedule's [status] is one of the four wire strings and its
    [scheduleType] one of the two, distinct members being spelled
    differently; the status filter offers the empty value followed by exactly
    the four status strings, spelled as the wire contract spells them. *)
Theorem status_and_type_are_wire_enums :
  (∀ s : Schedule,
      status_str (status s) ∈ wire_status_values
      ∧ scheduleType_str (scheduleType s) ∈ wire_scheduleType_values)
  ∧ status_str <$> [ACTIVE; PAUSED; COMPLETED; ERROR] = wire_status_values
  ∧ scheduleType_str <$> [ONE_TIME; RECURRING] = wire_scheduleType_values
  ∧ Inj (=) (=) status_str ∧ Inj (=) (=) scheduleType_str
  ∧ ListCore.statusFilterOptions.*1 = "" :: wire_status_values.
Proof.
  split; [|repeat split; auto using status_str_inj, scheduleType_str_inj].
  intros s. split.
  - destruct (status s); unfold wire_status_values; simpl; set_solver.
  - destruct (scheduleType s); unfold wire_scheduleType_values; simpl; set_solver.
Qed.

(** C4, as stated, fails on an empty result page: the response body is
    there and says [totalPages: 0], yet the pagination is given 1. *)
Lemma pagination_of_empty_page :
  let body := ListCore.mkPage (Some []) (Some 0%Z) (Some 0%Z) in
  let schedulesData := Some (ListCore.mkResponse (Some body)) in
  ListCore.totalPages body = Some 0%Z
  ∧ ListCore.paginationTotalPages schedulesData = 1%Z.
Proof. split; reflexivity. Qed.

(** C4, amended. The table is given the body's [content], and the pagination
    its [totalElements] and, when that is not zero, its [totalPages]; the
    fall-backs are the empty list, 0 and 1, used when the response, its body or
    the property is missing, and 1 also when [totalPages] is zero. *)
Theorem table_props_of_response (schedulesData : option ListCore.Response) :
  match schedulesData ≫= ListCore.data with
  | Some body =>
      ListCore.tableData schedulesData = default [] (ListCore.content body)
      ∧ ListCore.paginationTotalItems schedulesData
        = default 0%Z (ListCore.totalElements body)
      ∧ ListCore.paginationTotalPages schedulesData
        = match ListCore.totalPages body with
          | Some n => if decide (n = 0%Z) then 1%Z else n
          | None => 1%Z
          end
  | None =>
      ListCore.tableData schedulesData = []
      ∧ ListCore.paginationTotalItems schedulesData = 0%Z
      ∧ ListCore.paginationTotalPages schedulesData = 1%Z
  end.
Proof.
  unfold ListCore.tableData, ListCore.paginationTotalItems,
    ListCore.paginationTotalPages.
  destruct (schedulesData ≫= ListCore.data) as [body|] eqn:Hbody; simpl.
  - repeat split.
    + destruct (ListCore.totalElements body); simpl; auto using num_or_zero.
    + destruct (ListCore.totalPages body); simpl; auto using num_or_one.
  - done.
Qed.

(** C5. Every call of [getSchedules] a render can make (on mount, from the
    refresh effect, after an activate, a pause or a delete) passes the object
    with exactly the properties page, size, search and status, holding the
    render's current page, page size, search term and status filter; and
    when one of the four differs from the previous render, the refresh effect
    issues such a call. *)
Theorem fetch_passes_filters_and_follows_them (st : ListCore.State) :
  (∀ prev fetchId schedule responseData args,
      ListCore.ApiCall (ListCore.GetSchedules args)
        ∈ ListCore.immediateFetch st
          ++ ListCore.refreshEffect prev fetchId st
          ++ ListCore.handleActivate st schedule responseData
          ++ ListCore.handlePause st schedule responseData
          ++ (ListCore.handleDeleteConfirm st responseData).2 →
      args = [("page", JNum (ListCore.currentPage st));
              ("size", JNum (ListCore.pageSize st));
              ("search", JStr (ListCore.searchTerm st));
              ("status", JStr (ListCore.statusFilter st))])
  ∧ (∀ before prevFetch fetchId,
      ListCore.currentPage before ≠ ListCore.currentPage st
      ∨ ListCore.pageSize before ≠ ListCore.pageSize st
      ∨ ListCore.searchTerm before ≠ ListCore.searchTerm st
      ∨ ListCore.statusFilter before ≠ ListCore.statusFilter st →
      ListCore.refreshEffect (Some (ListCore.refreshDeps prevFetch before)) fetchId st
      = [ListCore.ApiCall
           (ListCore.GetSchedules
              [("page", JNum (ListCore.currentPage st));
               ("size", JNum (ListCore.pageSize st));
               ("search", JStr (ListCore.searchTerm st));
               ("status", JStr (ListCore.statusFilter st))])]).
Proof.
  split.
  - intros prev fetchId schedule responseData args Hin.
    unfold ListCore.immediateFetch, ListCore.refreshEffect, ListCore.handleActivate,
      ListCore.handlePause, ListCore.handleDeleteConfirm, ListCore.fetchSchedules,
      ListCore.fetchArgs in Hin.
    destruct (ListCore.depsChanged _ _), responseData,
      (ListCore.selectedSchedule st); simpl in Hin;
      repeat (apply elem_of_cons in Hin as [Hin|Hin]; [congruence|]);
      by apply elem_of_nil in Hin.
  - intros before prevFetch fetchId Hdiff.
    unfold ListCore.refreshEffect, ListCore.depsChanged.
    rewrite bool_decide_eq_false_2; [reflexivity|].
    unfold ListCore.refreshDeps. intros Heq.
    injection Heq as Hp Hs Hq Hf _. tauto.
Qed.

Lemma fetch_after_search_change :
  ListCore.refreshEffect
    (Some (ListCore.refreshDeps 1 ListCore.initialState)) 1
    (ListCore.handleSearchChange "nightly" ListCore.initialState)
  = [ListCore.ApiCall
       (ListCore.GetSchedules
          [("page", JNum 0); ("size", JNum 10);
           ("search", JStr "nightly"); ("status", JStr "")])].
Proof.
  apply (proj2 (fetch_passes_filters_and_follows_them
                  (ListCore.handleSearchChange "nightly" ListCore.initialState))
           ListCore.initialState 1%N 1%N).
  right. right. left. simpl. discriminate.
Defined.

(** C8. For every schedule whose [cronExpression] is present exactly when
    its [scheduleType] is RECURRING, the two lists show the same Type label,
    One-time or Recurring.  "Present" is the test the second list performs,
    [schedule.cronExpression ? ... : ...], which holds of a field that is
    there and not the empty string: [truthy_opt]. *)
Theorem type_labels_agree (s : Schedule) :
  (truthy_opt (cronExpression s) = true ↔ scheduleType s = RECURRING) →
  ListCore.textContent (ScheduleList.typeCell s)
  = ListCore.textContent (ScheduleList2.typeCell s)
  ∧ (ListCore.textContent (ScheduleList.typeCell s) = "One-time"
     ∨ ListCore.textContent (ScheduleList.typeCell s) = "Recurring").
Proof.
  intros Hiff. unfold ScheduleList.typeCell, ScheduleList2.typeCell.
  destruct (truthy_opt (cronExpression s)) eqn:Hc.
  - rewrite (proj1 Hiff eq_refl). simpl. auto.
  - destruct (scheduleType s) eqn:Ht; simpl; auto.
    destruct Hiff as [_ Hback]. specialize (Hback eq_refl). discriminate.
Qed.

Lemma type_labels_agree_nightly :
  let s := mkSchedule "7" "Nightly" "T1" "Customers" ACTIVE RECURRING
             "2025-01-01T00:00:00" None (Some "0 0 0 * * ?") "CSV" 100 in
  ListCore.textContent (ScheduleList.typeCell s)
  = ListCore.textContent (ScheduleList2.typeCell s)
  ∧ (ListCore.textContent (ScheduleList.typeCell s) = "One-time"
     ∨ ListCore.textContent (ScheduleList.typeCell s) = "Recurring").
Proof.
  intros s. apply (type_labels_agree s). simpl. split; reflexivity.
Defined.

(** C9. A gesture that changes the search term or the status filter leaves
    the current page at 0; the two change handlers store the typed value and
    set the page to 0. *)
Theorem filter_change_resets_page (e : ListCore.Event) (st : ListCore.State) :
  ListCore.searchTerm (ListCore.handle e st) ≠ ListCore.searchTerm st
  ∨ ListCore.statusFilter (ListCore.handle e st) ≠ ListCore.statusFilter st →
  ListCore.currentPage (ListCore.handle e st) = 0%Z
  ∧ (∀ v, ListCore.searchTerm (ListCore.handleSearchChange v st) = v
          ∧ ListCore.currentPage (ListCore.handleSearchChange v st) = 0%Z)
  ∧ (∀ v, ListCore.statusFilter (ListCore.handleStatusFilterChange v st) = v
          ∧ ListCore.currentPage (ListCore.handleStatusFilterChange v st) = 0%Z).
Proof.
  intros Hchg. split; [|split; intros v; split; reflexivity].
  destruct e as [v|v|p|n|s|ok|]; simpl in *;
    try reflexivity; try (destruct Hchg; congruence).
  unfold ListCore.handleDeleteConfirm in *.
  destruct (ListCore.selectedSchedule st), ok; simpl in *; destruct Hchg; congruence.
Qed.

Lemma page_reset_after_status_select :
  let st := ListCore.setCurrentPage 3 ListCore.initialState in
  ListCore.currentPage (ListCore.handle (ListCore.StatusSelect "ERROR") st) = 0%Z.
Proof.
  intros st.
  apply (filter_change_resets_page (ListCore.StatusSelect "ERROR") st).
  right. simpl. discriminate.
Defined.

(** C10. A schedule without [lastRunTime] shows Never in the Last Run
    column; the formatter turns the empty string into N/A; and whenever the
    Last Run cell, the Next Run cell or the formatter does reach
    [new Date(...)], the string it parses is not empty (for the cells, it is
    the schedule's [lastRunTime] or [nextRunTime]). *)
Theorem absent_run_times_are_not_parsed :
  (∀ s, lastRunTime s = None → ListCore.lastRunCell s = ListCore.Literal "Never")
  ∧ ListCore.formatDate "" = ListCore.Literal "N/A"
  ∧ (∀ s d, ListCore.lastRunCell s = ListCore.DateToLocaleString d →
            lastRunTime s = Some d ∧ d ≠ "")
  ∧ (∀ s d, ListCore.nextRunCell s = ListCore.DateToLocaleString d →
            nextRunTime s = d ∧ d ≠ "")
  ∧ (∀ x d, ListCore.formatDate x = ListCore.DateToLocaleString d → d = x ∧ x ≠ "").
Proof.
  assert (Hfmt : ∀ x d, ListCore.formatDate x = ListCore.DateToLocaleString d →
                        d = x ∧ x ≠ "").
  { intros x d H. destruct (formatDate_cases x) as [[_ Hx]|[Hne Hx]];
      rewrite Hx in H; [discriminate|]. injection H as <-. done. }
  repeat split.
  - intros s H. unfold ListCore.lastRunCell. by rewrite H.
  - unfold ListCore.lastRunCell in H.
    destruct (lastRunTime s) as [t|]; [|discriminate].
    destruct (truthy_string t); [|discriminate].
    apply Hfmt in H as [-> _]. reflexivity.
  - unfold ListCore.lastRunCell in H.
    destruct (lastRunTime s) as [t|]; [|discriminate].
    destruct (truthy_string t); [|discriminate].
    by apply Hfmt in H as [-> ?].
  - unfold ListCore.nextRunCell in H. by apply Hfmt in H as [-> _].
  - unfold ListCore.nextRunCell in H. by apply Hfmt in H as [-> ?].
  - by apply Hfmt in H as [? _].
  - by apply Hfmt in H as [_ ?].
Qed.

Lemma never_run_schedule_shows_never :
  ListCore.lastRunCell
    (mkSchedule "7" "Nightly" "T1" "Customers" ACTIVE RECURRING
       "2025-01-01T00:00:00" None (Some "0 0 0 * * ?") "CSV" 100)
  = ListCore.Literal "Never".
Proof.
  apply (proj1 absent_run_times_are_not_parsed). reflexivity.
Defined.

(** * Properties of the engine *)

Section EngineFacts.
Import Engine EngineInv.

Variable cron_valid : string → bool.
Variable cron_next : string → N → N.

Abbreviation step := (Engine.step cron_valid cron_next).
Abbreviation run := (Engine.run cron_valid cron_next).

Lemma valid_draft_trigger (d : Draft) :
  valid_draft cron_valid d = true →
  is_Some (d_cronExpression d) ↔ d_scheduleType d = RECURRING.
Proof.
  unfold valid_draft, valid_trigger. intros H.
  apply andb_prop in H as [_ H].
  destruct (d_scheduleType d), (d_cronExpression d) as [c|]; simpl in H.
  - apply andb_prop in H as [_ H]. discriminate.
  - split; [intros [? ?]|]; discriminate.
  - split; [reflexivity | by eexists].
  - discriminate.
Qed.

Lemma report_fields (t : N) (o : Outcome) (s : Schedule) :
  let s' := match o with
            | Succeeded => on_success cron_next t s
            | Failed m => on_failure m s
            end in
  inFlight s' = false
  ∧ scheduleType s' = scheduleType s
  ∧ cronExpression s' = cronExpression s.
Proof.
  destruct o; simpl; [|done]. unfold on_success.
  destruct (scheduleType s) eqn:Ht, (cronExpression s) eqn:Hc; simpl; auto.
Qed.

Lemma step_footprint (op : Op) (st : State) : footprint st (step op st).1.
Proof.
  destruct op as [d|d|id|id|id d|id|e|e|id o]; simpl.
  - by apply fp_quiet.
  - unfold create. destruct (valid_draft cron_valid d) eqn:Hv; simpl.
    + eapply fp_created; simpl; eauto.
      * by destruct (d_paused d).
      * unfold well_triggered; simpl. by apply valid_draft_trigger.
    + by apply fp_quiet.
  - unfold activate. destruct (store st !! id) as [s|] eqn:Hs; [|by apply fp_quiet].
    destruct (status s) eqn:Hst; simpl; try by apply fp_quiet.
    + eapply fp_edited; simpl; eauto.
      * by destruct (N.ltb _ _).
      * destruct (N.ltb _ _); simpl; rewrite Hst; split; discriminate.
      * by destruct (N.ltb _ _).
    + eapply fp_edited; simpl; eauto.
      rewrite Hst; split; discriminate.
  - unfold pause. destruct (store st !! id) as [s|] eqn:Hs; [|by apply fp_quiet].
    destruct (status s) eqn:Hst; simpl; try by apply fp_quiet.
    eapply fp_edited; simpl; eauto. rewrite Hst; split; discriminate.
  - unfold update. destruct (store st !! id) as [s|] eqn:Hs; [|by apply fp_quiet].
    destruct (inFlight s) eqn:Hf; [by apply fp_quiet|].
    destruct (valid_draft cron_valid d) eqn:Hv; [|by apply fp_quiet]. simpl.
    eapply fp_edited; simpl; eauto.
    intros _. unfold well_triggered; simpl. by apply valid_draft_trigger.
  - unfold delete_schedule. destruct (store st !! id) as [s|] eqn:Hs;
      [|by apply fp_quiet].
    by eapply fp_deleted.
  - by apply fp_quiet.
  - unfold claim. destruct (pending st !! e) as [[|id rest]|] eqn:Hp;
      try by apply fp_quiet.
    destruct (store st !! id) as [s|] eqn:Hs; [|by apply fp_quiet].
    destruct (due (now st) s) eqn:Hdue; [|by apply fp_quiet].
    unfold due in Hdue.
    apply andb_prop in Hdue as [Hdue Hfree]. apply andb_prop in Hdue as [Hact _].
    apply bool_decide_eq_true in Hact. apply negb_true_iff in Hfree.
    by eapply fp_dispatched.
  - unfold report. destruct (store st !! id) as [s|] eqn:Hs; [|by apply fp_quiet].
    destruct (inFlight s) eqn:Hf; [|by apply fp_quiet].
    destruct (report_fields (now st) o s) as (Hfl & Hty & Hcr).
    eapply fp_reported; simpl; eauto.
Qed.

Lemma replay_app (l1 l2 : list Event) (out : gset N) :
  replay (l1 ++ l2) out = replay l1 out ≫= replay l2.
Proof.
  revert out. induction l1 as [|[e id o|id o] l1 IH]; intros out; simpl.
  - reflexivity.
  - case_decide; [reflexivity | apply IH].
  - apply IH.
Qed.

Lemma dispatches_app (id : N) (l1 l2 : list Event) :
  dispatches id (l1 ++ l2) = dispatches id l1 + dispatches id l2.
Proof.
  induction l1 as [|[e j o|j o] l1 IH]; simpl; [reflexivity| |exact IH].
  rewrite IH. lia.
Qed.



Lemma initial_invariant : invariant initial.
Proof.
  split; simpl.
  - intros id s H. by rewrite lookup_empty in H.
  - intros id s H. by rewrite lookup_empty in H.
  - intros id s H. by rewrite lookup_empty in H.
  - exists ∅. split; [reflexivity|]. split.
    + intros id H. set_solver.
    + intros id s H. by rewrite lookup_empty in H.
Qed.

Lemma footprint_invariant (st st' : State) :
  footprint st st' → invariant st → invariant st'.
Proof.
  intros Hfp [Hkeys Htrig Hcomp (out & Hre & Hbound & Hmark)].
  destruct Hfp as
    [Hst Hn Hl
    |s Hst Hn Hl Hf Hnc Hwt
    |id s s' Hs Hst Hn Hl Hf Hc Hwt
    |id Hst Hn Hl
    |e id s Hs Hact Hf Hst Hn Hl
    |id o s s' Hs Hf Hst Hn Hl Hf' Hty Hcr].
  - split; rewrite ?Hst, ?Hn, ?Hl; eauto.
  - split; rewrite ?Hst, ?Hn, ?Hl.
    + intros id r Hr. apply lookup_insert_Some in Hr as [[<- <-]|[_ Hr]]; [lia|].
      apply Hkeys in Hr. lia.
    + intros id r Hr. apply lookup_insert_Some in Hr as [[<- <-]|[_ Hr]]; eauto.
    + intros id r Hr. apply lookup_insert_Some in Hr as [[<- <-]|[_ Hr]]; eauto.
    + exists out. split; [exact Hre|]. split.
      * intros id Hid. apply Hbound in Hid. lia.
      * intros id r Hr. apply lookup_insert_Some in Hr as [[<- <-]|[_ Hr]]; eauto.
        rewrite Hf. split; [discriminate|].
        intros Hin. apply Hbound in Hin. lia.
  - split; rewrite ?Hst, ?Hn, ?Hl.
    + intros j r Hr. apply lookup_insert_Some in Hr as [[<- <-]|[_ Hr]]; eauto.
    + intros j r Hr. apply lookup_insert_Some in Hr as [[<- <-]|[_ Hr]]; eauto.
    + intros j r Hr. apply lookup_insert_Some in Hr as [[<- <-]|[_ Hr]]; eauto.
      intros Hc'. rewrite Hf. apply (Hcomp _ _ Hs). by apply Hc.
    + exists out. split; [exact Hre|]. split; [exact Hbound|].
      intros j r Hr. apply lookup_insert_Some in Hr as [[<- <-]|[_ Hr]]; eauto.
      rewrite Hf. eauto.
  - split; rewrite ?Hst, ?Hn, ?Hl.
    + intros j r Hr. apply lookup_delete_Some in Hr as [_ Hr]. eauto.
    + intros j r Hr. apply lookup_delete_Some in Hr as [_ Hr]. eauto.
    + intros j r Hr. apply lookup_delete_Some in Hr as [_ Hr]. eauto.
    + exists out. split; [exact Hre|]. split; [exact Hbound|].
      intros j r Hr. apply lookup_delete_Some in Hr as [_ Hr]. eauto.
  - assert (Hfree : id ∉ out).
    { intros Hin. apply (Hmark _ _ Hs) in Hin. congruence. }
    split; rewrite ?Hst, ?Hn, ?Hl.
    + intros j r Hr. apply lookup_insert_Some in Hr as [[<- <-]|[_ Hr]]; eauto.
    + intros j r Hr. apply lookup_insert_Some in Hr as [[<- <-]|[_ Hr]]; eauto.
      apply (Htrig _ _ Hs).
    + intros j r Hr. apply lookup_insert_Some in Hr as [[<- <-]|[_ Hr]]; eauto.
      simpl. congruence.
    + exists ({[id]} ∪ out). split; [|split].
      * rewrite replay_app, Hre. simpl. by rewrite decide_False.
      * intros j Hj. apply elem_of_union in Hj as [Hj|Hj]; [|by apply Hbound].
        apply elem_of_singleton in Hj as ->. eauto.
      * intros j r Hr. apply lookup_insert_Some in Hr as [[<- <-]|[Hne Hr]].
        -- simpl. split; [intros _ | reflexivity].
           apply elem_of_union_l. by apply elem_of_singleton.
        -- rewrite (Hmark _ _ Hr), elem_of_union, elem_of_singleton.
           split; [by right | intros [Heq|Hin]; [congruence | exact Hin]].
  - split; rewrite ?Hst, ?Hn, ?Hl.
    + intros j r Hr. apply lookup_insert_Some in Hr as [[<- <-]|[_ Hr]]; eauto.
    + intros j r Hr. apply lookup_insert_Some in Hr as [[<- <-]|[_ Hr]]; eauto.
      unfold well_triggered. rewrite Hty, Hcr. apply (Htrig _ _ Hs).
    + intros j r Hr. apply lookup_insert_Some in Hr as [[<- <-]|[_ Hr]]; eauto.
    + exists (out ∖ {[id]}). split; [|split].
      * rewrite replay_app, Hre. reflexivity.
      * intros j Hj. apply Hbound. by apply elem_of_difference in Hj as [Hj _].
      * intros j r Hr. apply lookup_insert_Some in Hr as [[<- <-]|[Hne Hr]].
        -- rewrite Hf'. split; [discriminate|].
           intros Hin. apply elem_of_difference in Hin as [_ Hin].
           exfalso. apply Hin. by apply elem_of_singleton.
        -- rewrite (Hmark _ _ Hr), elem_of_difference, elem_of_singleton.
           split; [intros Hin; split; [exact Hin | congruence] | by intros [Hin _]].
Qed.

Lemma run_invariant (ops : list Op) (st : State) :
  invariant st → invariant (run ops st).
Proof.
  revert st. induction ops as [|op ops IH]; intros st Hinv; simpl; [exact Hinv|].
  apply IH. eapply footprint_invariant; [apply step_footprint | exact Hinv].
Qed.

Lemma footprint_retired (id : N) (st st' : State) :
  footprint st st' → retired id st →
  retired id st' ∧ dispatches id (log st') = dispatches id (log st).
Proof.
  intros Hfp [Hlt Hrow].
  destruct Hfp as
    [Hst Hn Hl
    |s Hst Hn Hl Hf Hnc Hwt
    |j s s' Hs Hst Hn Hl Hf Hc Hwt
    |j Hst Hn Hl
    |e j s Hs Hact Hf Hst Hn Hl
    |j o s s' Hs Hf Hst Hn Hl Hf' Hty Hcr];
    unfold retired; rewrite Hst, Hn, Hl.
  - auto.
  - split; [split; [lia|]|reflexivity].
    intros r Hr. apply lookup_insert_Some in Hr as [[Heq _]|[_ Hr]]; [lia | eauto].
  - split; [split; [exact Hlt|]|reflexivity].
    intros r Hr. apply lookup_insert_Some in Hr as [[<- <-]|[_ Hr]]; [|eauto].
    destruct (Hrow _ Hs) as [Hcs Hfs]. split; [by apply Hc | congruence].
  - split; [split; [exact Hlt|]|reflexivity].
    intros r Hr. apply lookup_delete_Some in Hr as [_ Hr]. eauto.
  - assert (Hne : j ≠ id).
    { intros ->. destruct (Hrow _ Hs) as [Hcs _]. congruence. }
    split; [split; [exact Hlt|]|].
    + intros r Hr. rewrite lookup_insert_ne in Hr by exact Hne. eauto.
    + rewrite dispatches_app. simpl. rewrite bool_decide_eq_false_2 by exact Hne. lia.
  - assert (Hne : j ≠ id).
    { intros ->. destruct (Hrow _ Hs) as [_ Hfs]. congruence. }
    split; [split; [exact Hlt|]|].
    + intros r Hr. rewrite lookup_insert_ne in Hr by exact Hne. eauto.
    + rewrite dispatches_app. simpl. lia.
Qed.

Lemma run_retired (id : N) (ops : list Op) (st : State) :
  retired id st →
  retired id (run ops st)
  ∧ dispatches id (log (run ops st)) = dispatches id (log st).
Proof.
  revert st. induction ops as [|op ops IH]; intros st Hret; simpl; [auto|].
  destruct (footprint_retired id _ _ (step_footprint op st) Hret) as [Hret' Hd].
  destruct (IH _ Hret') as [Hret'' Hd']. split; [exact Hret''|congruence].
Qed.

Lemma completed_retired (id : N) (s : Schedule) (st : State) :
  invariant st → store st !! id = Some s → status s = COMPLETED → retired id st.
Proof.
  intros Hinv Hs Hc. split; [by eapply inv_keys|].
  intros r Hr. rewrite Hs in Hr. injection Hr as <-.
  split; [exact Hc | by eapply inv_completed].
Qed.

End EngineFacts.

Section EngineSteps.
Import Engine EngineInv.

Variable cron_valid : string → bool.
Variable cron_next : string → N → N.

Lemma activate_completed (st : State) (id : N) (s : Schedule) :
  store st !! id = Some s → status s = COMPLETED →
  Engine.step cron_valid cron_next (Activate id) st = (st, Err InvalidState).
Proof. intros Hs Hc. simpl. unfold activate. by rewrite Hs, Hc. Qed.

Lemma report_success_one_time (st : State) (id : N) (s : Schedule) :
  store st !! id = Some s → scheduleType s = ONE_TIME → inFlight s = true →
  ∃ s', store (Engine.step cron_valid cron_next (Report id Succeeded) st).1 !! id
        = Some s'
        ∧ status s' = COMPLETED ∧ inFlight s' = false
        ∧ lastRunTime s' = Some (now st).
Proof.
  intros Hs Ht Hf. simpl. unfold report. rewrite Hs, Hf. simpl.
  rewrite lookup_insert_eq. eexists. split; [reflexivity|].
  unfold on_success. by rewrite Ht.
Qed.



End EngineSteps.

Lemma submitted_payload_trigger (routeId : option string)
    (formData : ScheduleForm.ScheduleFormData) (payload : ScheduleForm.SchedulePayload) :
  ScheduleForm.handleSubmit routeId formData = Some payload →
  (is_Some (ScheduleForm.payloadCronExpression payload)
   ↔ ScheduleForm.scheduleType formData = RECURRING)
  ∧ ScheduleForm.payloadCronExpression payload ≠ Some "".
Proof.
  unfold ScheduleForm.handleSubmit, ScheduleForm.validateForm,
    ScheduleForm.validationErrors.
  destruct (ScheduleForm.scheduleType formData) eqn:Ht.
  - intros H. destruct (_ ++ _) eqn:He in H; [|discriminate].
    injection H as <-. unfold ScheduleForm.schedulePayload; simpl. rewrite Ht. simpl.
    split; [|discriminate]. split; [intros [? ?]|]; discriminate.
  - rewrite (bool_decide_eq_true_2 (RECURRING = RECURRING)) by reflexivity.
    rewrite (bool_decide_eq_false_2 (RECURRING = ONE_TIME)) by discriminate.
    destruct (truthy_opt (ScheduleForm.cronExpression formData)) eqn:Hc; simpl.
    + intros H. destruct (_ ++ _) eqn:He in H; [|discriminate].
      injection H as <-. unfold ScheduleForm.schedulePayload; simpl. rewrite Ht. simpl.
      apply truthy_opt_Some in Hc as (c & -> & Hne).
      split; [split; [reflexivity | by eexists] | congruence].
    + intros H. destruct (_ ++ _) eqn:He in H; [|discriminate].
      exfalso. repeat (apply app_eq_nil in He as [_ He]). discriminate.
Qed.

(** C2. Activating a COMPLETED schedule is refused with InvalidState and
    the engine's state is left as it was; and for a schedule the list shows
    as COMPLETED, both variants render the activate control disabled, so that
    no click on any control of its Actions cell sends an activate request. *)
Theorem activate_completed_is_refused
    (cron_valid : string → bool) (cron_next : string → N → N)
    (st : Engine.State) (id : N) (row : Engine.Schedule) (schedule : Schedule) :
  Engine.store st !! id = Some row → Engine.status row = COMPLETED →
  status schedule = COMPLETED →
  Engine.step cron_valid cron_next (Engine.Activate id) st
  = (st, Engine.Err Engine.InvalidState)
  ∧ (∀ isPausing isActivating c,
       c = ScheduleList.toggleControl isPausing isActivating schedule
       ∨ c = ScheduleList2.toggleControl isPausing isActivating schedule →
       ListCore.onClick c = ListCore.Activate schedule
       ∧ ListCore.disabled c = true)
  ∧ (∀ isPausing isActivating ui responseData c sid,
       (c ∈ ScheduleList.actionsCell isPausing isActivating schedule →
        ListCore.ApiCall (ListCore.ActivateSchedule sid)
          ∉ (ListCore.clickControl ListCore.click ui c responseData).2)
       ∧ (c ∈ ScheduleList2.actionsCell isPausing isActivating schedule →
          ListCore.ApiCall (ListCore.ActivateSchedule sid)
            ∉ (ListCore.clickControl ListCore.buttonClick ui c responseData).2)).
Proof.
  intros Hrow Hdone Hshown. split; [by eapply activate_completed|].
  assert (Htoggle : ∀ isPausing isActivating c,
             c = ScheduleList.toggleControl isPausing isActivating schedule
             ∨ c = ScheduleList2.toggleControl isPausing isActivating schedule →
             ListCore.onClick c = ListCore.Activate schedule
             ∧ ListCore.disabled c = true).
  { intros isPausing isActivating c [->| ->];
      unfold ScheduleList.toggleControl, ScheduleList2.toggleControl;
      rewrite Hshown; simpl; split; auto using orb_true_r. }
  split; [exact Htoggle|].
  intros isPausing isActivating ui responseData c sid.
  split; intros Hin Hsent;
    unfold ScheduleList.actionsCell, ScheduleList2.actionsCell in Hin;
    unfold ListCore.clickControl, ListCore.buttonClick, ListCore.click in Hsent;
    repeat (apply elem_of_cons in Hin as [->|Hin]); simpl in Hsent;
    try (by apply elem_of_nil in Hin);
    try (by repeat (apply elem_of_cons in Hsent as [?|Hsent]);
         try apply elem_of_nil in Hsent).
  - destruct (Htoggle isPausing isActivating _ (or_introl eq_refl)) as [_ Hd].
    rewrite Hd in Hsent. by apply elem_of_nil in Hsent.
  - destruct (Htoggle isPausing isActivating _ (or_intror eq_refl)) as [_ Hd].
    rewrite Hd in Hsent. by apply elem_of_nil in Hsent.
Qed.

(** C3. In every state the engine can reach, a stored schedule carries a
    [cronExpression] exactly when its [scheduleType] is RECURRING; and every
    payload the schedule form submits does so as well. *)
Theorem cron_expression_iff_recurring
    (cron_valid : string → bool) (cron_next : string → N → N) :
  (∀ ops id s,
      Engine.store (Engine.run cron_valid cron_next ops Engine.initial) !! id = Some s →
      is_Some (Engine.cronExpression s) ↔ Engine.scheduleType s = RECURRING)
  ∧ (∀ routeId formData payload,
      ScheduleForm.handleSubmit routeId formData = Some payload →
      is_Some (ScheduleForm.payloadCronExpression payload)
      ↔ ScheduleForm.scheduleType formData = RECURRING).
Proof.
  split.
  - intros ops id s Hs.
    eapply (EngineInv.inv_triggers _ (run_invariant cron_valid cron_next ops _
                                        initial_invariant)); exact Hs.
  - intros routeId formData payload H.
    by apply (submitted_payload_trigger routeId formData payload).
Qed.


Lemma activate_completed_example :
  let st := Engine.run Samples.every_tick_valid Samples.every_tick_next
              Samples.one_time_done Engine.initial in
  Engine.step Samples.every_tick_valid Samples.every_tick_next (Engine.Activate 0) st
  = (st, Engine.Err Engine.InvalidState)
  ∧ ListCore.disabled
      (ScheduleList.toggleControl false false Samples.completed_in_list) = true
  ∧ ListCore.disabled
      (ScheduleList2.toggleControl false false Samples.completed_in_list) = true.
Proof.
  intros st.
  destruct (activate_completed_is_refused
              Samples.every_tick_valid Samples.every_tick_next st 0%N
              (Engine.mkSchedule "Quarter close" "T1" ONE_TIME 5 None (Some 5%N)
                 COMPLETED Engine.CSV 100 None false)
              Samples.completed_in_list)
    as (Hrefused & Htoggle & _).
  - vm_compute. reflexivity.
  - reflexivity.
  - reflexivity.
  - split; [exact Hrefused|]. split.
    + apply (Htoggle false false). by left.
    + apply (Htoggle false false). by right.
Defined.

Lemma cron_expression_iff_recurring_example :
  let s := Engine.mkSchedule "Nightly" "T1" RECURRING 2 (Some "0 0 0 * * ?")
             (Some 1%N) ACTIVE Engine.CSV 100 None true in
  is_Some (Engine.cronExpression s) ↔ Engine.scheduleType s = RECURRING.
Proof.
  intros s.
  apply (proj1 (cron_expression_iff_recurring
                  Samples.every_tick_valid Samples.every_tick_next)
           Samples.two_evaluators 0%N s).
  vm_compute. reflexivity.
Defined.

(** C6. In every reachable state: when the job of an in-flight ONE_TIME
    schedule is reported successful, its status becomes COMPLETED; and once
    a schedule is COMPLETED, whatever steps follow, it is never handed to the
    executor again and its row, while it exists, stays COMPLETED. *)
Theorem one_time_completes_for_good
    (cron_valid : string → bool) (cron_next : string → N → N)
    (ops : list Engine.Op) (id : N) :
  let st := Engine.run cron_valid cron_next ops Engine.initial in
  (∀ s, Engine.store st !! id = Some s →
        Engine.scheduleType s = ONE_TIME → Engine.inFlight s = true →
        ∃ s', Engine.store
                (Engine.step cron_valid cron_next
                   (Engine.Report id Engine.Succeeded) st).1 !! id = Some s'
              ∧ Engine.status s' = COMPLETED)
  ∧ (∀ s, Engine.store st !! id = Some s → Engine.status s = COMPLETED →
        ∀ later,
          let st' := Engine.run cron_valid cron_next later st in
          Engine.dispatches id (Engine.log st') = Engine.dispatches id (Engine.log st)
          ∧ ∀ s', Engine.store st' !! id = Some s' → Engine.status s' = COMPLETED).
Proof.
  intros st. split.
  - intros s Hs Ht Hf.
    destruct (report_success_one_time cron_valid cron_next st id s Hs Ht Hf)
      as (s' & Hs' & Hc & _).
    by exists s'.
  - intros s Hs Hc later st'.
    assert (Hret : EngineInv.retired id st).
    { eapply completed_retired; [|exact Hs|exact Hc].
      apply run_invariant, initial_invariant. }
    destruct (run_retired cron_valid cron_next id later st Hret) as [[_ Hrow] Hd].
    split; [exact Hd|]. intros s' Hs'. by destruct (Hrow s' Hs').
Qed.

Lemma one_time_completes_example :
  let run := Engine.run Samples.every_tick_valid Samples.every_tick_next in
  (∃ s', Engine.store (run Samples.one_time_done Engine.initial) !! 0%N = Some s'
         ∧ Engine.status s' = COMPLETED)
  ∧ Engine.dispatches 0
      (Engine.log (run Samples.afterwards (run Samples.one_time_done Engine.initial)))
    = Engine.dispatches 0 (Engine.log (run Samples.one_time_done Engine.initial)).
Proof.
  intros run. split.
  - apply (proj1 (one_time_completes_for_good
                    Samples.every_tick_valid Samples.every_tick_next
                    Samples.one_time_claimed 0%N)
             (Engine.mkSchedule "Quarter close" "T1" ONE_TIME 5 None None
                ACTIVE Engine.CSV 100 None true)).
    + vm_compute. reflexivity.
    + reflexivity.
    + reflexivity.
  - destruct (proj2 (one_time_completes_for_good
                       Samples.every_tick_valid Samples.every_tick_next
                       Samples.one_time_done 0%N)
                (Engine.mkSchedule "Quarter close" "T1" ONE_TIME 5 None (Some 5%N)
                   COMPLETED Engine.CSV 100 None false)
                ltac:(vm_compute; reflexivity) eq_refl Samples.afterwards)
      as [Hsame _].
    exact Hsame.
Defined.

Section EngineOrderFacts.
Import Engine EngineInv EngineOrder.

Variable cron_valid : string → bool.
Variable cron_next : string → N → N.

(** "The next occurrence strictly after now". *)
Hypothesis cron_later : ∀ c t, (t < cron_next c t)%N.










End EngineOrderFacts.




(** * Properties of the JavaScript runtime model *)

Section RuntimeFacts.
Import JsRuntime.

Lemma insertBy_Permutation {A : Type} (compareFn : A → A → Z) (x : A) (l : list A) :
  insertBy compareFn x l ≡ₚ x :: l.
Proof.
  induction l as [|y l IH]; simpl; [reflexivity|].
  destruct (Z.leb _ _); [reflexivity|].
  rewrite IH. apply perm_swap.
Qed.

Lemma sortBy_Permutation {A : Type} (compareFn : A → A → Z) (l : list A) :
  sortBy compareFn l ≡ₚ l.
Proof.
  induction l as [|x l IH]; simpl; [reflexivity|].
  by rewrite insertBy_Permutation, IH.
Qed.

Lemma insertBy_Sorted {A : Type} (compareFn : A → A → Z) (x : A) (l : list A) :
  (∀ a b, (compareFn a b ≤ 0)%Z ∨ (compareFn b a ≤ 0)%Z) →
  Sorted (λ a b, (compareFn a b ≤ 0)%Z) l →
  Sorted (λ a b, (compareFn a b ≤ 0)%Z) (insertBy compareFn x l).
Proof.
  intros Htotal. induction l as [|y l IH]; intros Hs; simpl.
  - by repeat constructor.
  - destruct (Z.leb_spec (compareFn x y) 0) as [Hle|Hgt].
    + constructor; [exact Hs|]. by constructor.
    + apply Sorted_inv in Hs as [Hs Hhd].
      constructor; [by apply IH|].
      destruct l as [|z l]; simpl.
      * constructor. destruct (Htotal x y); lia.
      * destruct (Z.leb_spec (compareFn x z) 0).
        -- constructor. destruct (Htotal x y); lia.
        -- constructor. by apply HdRel_inv in Hhd.
Qed.

Lemma sortBy_Sorted {A : Type} (compareFn : A → A → Z) (l : list A) :
  (∀ a b, (compareFn a b ≤ 0)%Z ∨ (compareFn b a ≤ 0)%Z) →
  Sorted (λ a b, (compareFn a b ≤ 0)%Z) (sortBy compareFn l).
Proof.
  intros Htotal. induction l as [|x l IH]; simpl; [constructor|].
  by apply insertBy_Sorted.
Qed.

Lemma ownEntries_Permutation {V : Type} (props : list (string * V)) :
  ownEntries props ≡ₚ props.
Proof.
  unfold ownEntries. rewrite sortBy_Permutation.
  induction props as [|[k v] props IH]; simpl; [reflexivity|].
  rewrite filter_cons. simpl.
  destruct (arrayIndex k) as [n|] eqn:Hk; simpl.
  - apply perm_skip. exact IH.
  - etransitivity; [symmetry; apply Permutation_middle|].
    apply perm_skip. exact IH.
Qed.

Lemma own_None {V : Type} (key : string) (props : list (string * V)) :
  own key props = None ↔ key ∉ props.*1.
Proof.
  induction props as [|[k v] props IH]; simpl.
  - split; [intros _; apply not_elem_of_nil | reflexivity].
  - rewrite not_elem_of_cons. destruct (String.eqb_spec k key) as [->|Hne].
    + split; [discriminate | intros [? _]; congruence].
    + rewrite IH. split; [intros ?; split; [congruence | assumption] | tauto].
Qed.

Lemma own_Some_elem {V : Type} (key : string) (v : V) (props : list (string * V)) :
  own key props = Some v → (key, v) ∈ props.
Proof.
  induction props as [|[k w] props IH]; simpl; [discriminate|].
  destruct (String.eqb_spec k key) as [->|Hne].
  - intros [= ->]. apply elem_of_cons. by left.
  - intros H. apply elem_of_cons. right. by apply IH.
Qed.

Lemma elem_own_Some {V : Type} (key : string) (v : V) (props : list (string * V)) :
  NoDup props.*1 → (key, v) ∈ props → own key props = Some v.
Proof.
  induction props as [|[k w] props IH]; simpl; intros Hnd Hin.
  - by apply elem_of_nil in Hin.
  - apply NoDup_cons in Hnd as [Hk Hnd].
    apply elem_of_cons in Hin as [[= <- <-]|Hin].
    + by rewrite String.eqb_refl.
    + destruct (String.eqb_spec k key) as [->|Hne]; [|by apply IH].
      exfalso. apply Hk. apply list_elem_of_fmap. by exists (key, v).
Qed.

Lemma alterOwn_keys {V : Type} (key : string) (f : V → V) (props : list (string * V)) :
  (alterOwn key f props).*1 = props.*1.
Proof.
  induction props as [|[k w] props IH]; simpl; [reflexivity|].
  destruct (String.eqb k key); simpl; [reflexivity | f_equal; exact IH].
Qed.

Lemma alterOwn_elem {V : Type} (key : string) (f : V → V)
    (props : list (string * V)) (k : string) (v : V) :
  NoDup props.*1 →
  (k, v) ∈ alterOwn key f props ↔
  (k ≠ key ∧ (k, v) ∈ props) ∨ (k = key ∧ ∃ w, (key, w) ∈ props ∧ v = f w).
Proof.
  induction props as [|[k0 w0] props IH]; simpl; intros Hnd.
  - split; [intros H; by apply elem_of_nil in H|].
    intros [[_ H]|[_ (w & H & _)]]; by apply elem_of_nil in H.
  - apply NoDup_cons in Hnd as [Hk0 Hnd].
    assert (Hfresh : ∀ w, (k0, w) ∉ props).
    { intros w Hw. apply Hk0. apply list_elem_of_fmap. by exists (k0, w). }
    destruct (String.eqb_spec k0 key) as [->|Hne].
    + rewrite !elem_of_cons. split.
      * intros [Heq|Hin].
        -- simplify_eq. right. split; [done|]. exists w0. split; [by left|done].
        -- left. split; [|by right]. intros ->. by apply (Hfresh v).
      * intros [[Hne [Heq|Hin]]|[-> (w & Hin & ->)]].
        -- simplify_eq.
        -- by right.
        -- apply elem_of_cons in Hin as [Heq|Hin].
           ++ simplify_eq. by left.
           ++ by destruct (Hfresh w).
    + rewrite elem_of_cons, (IH Hnd), elem_of_cons. split.
      * intros [Heq|[[Hk Hin]|[-> (w & Hin & ->)]]].
        -- simplify_eq. left. split; [done | by left].
        -- left. split; [done | by right].
        -- right. split; [done|]. exists w. split; [by right | done].
      * intros [[Hk [Heq|Hin]]|[-> (w & Hin & ->)]].
        -- by left.
        -- right. left. done.
        -- right. right. split; [done|]. exists w. split; [|done].
           apply elem_of_cons in Hin as [Heq|Hin]; [|done].
           simplify_eq.
Qed.

End RuntimeFacts.

(** * Properties of the data type selectors *)

Section GroupingFacts.
Import JsRuntime GroupingInv.
Context {D G O : Type}.
Variable categoryOf : D → string.
Variable create : string → G.
Variable push : D → G → G.
Variable opts : G → list O.
Variable mk : D → O.
Variable Q : string → G → Prop.
Hypothesis opts_create : ∀ k, opts (create k) = [].
Hypothesis opts_push : ∀ d g, opts (push d g) = opts g ++ [mk d].
Hypothesis Q_create : ∀ k, Q k (create k).
Hypothesis Q_push : ∀ k d g, Q k g → Q k (push d g).

Lemma filter_none {A : Type} (P : A → Prop) `{!∀ x, Decision (P x)} (l : list A) :
  (∀ x, x ∈ l → ¬ P x) → filter P l = [].
Proof.
  induction l as [|x l IH]; intros Hnone; [reflexivity|].
  rewrite filter_cons_False by (apply Hnone, elem_of_cons; by left).
  apply IH. intros y Hy. apply Hnone, elem_of_cons. by right.
Qed.

Lemma own_snoc {V : Type} (key : string) (v : V) (props : list (string * V)) :
  own key props = None → own key (props ++ [(key, v)]) = Some v.
Proof.
  induction props as [|[k w] props IH]; simpl.
  - by rewrite String.eqb_refl.
  - destruct (String.eqb k key); [discriminate | exact IH].
Qed.

Lemma alterOwn_snoc {V : Type} (key : string) (f : V → V) (v : V)
    (props : list (string * V)) :
  own key props = None →
  alterOwn key f (props ++ [(key, v)]) = props ++ [(key, f v)].
Proof.
  induction props as [|[k w] props IH]; simpl.
  - by rewrite String.eqb_refl.
  - destruct (String.eqb k key); [discriminate|]. intros H. f_equal. by apply IH.
Qed.

Lemma groupStep_spec (acc : list (string * G)) (d : D) :
  groupStep categoryOf create push acc d
  = match own (categoryOf d) acc with
    | Some _ => Some (alterOwn (categoryOf d) (push d) acc)
    | None =>
        if inherited (categoryOf d) then None
        else Some (acc ++ [(categoryOf d, push d (create (categoryOf d)))])
    end.
Proof.
  unfold groupStep, get.
  destruct (own (categoryOf d) acc) as [g|] eqn:Hown; simpl.
  - by rewrite Hown.
  - destruct (inherited (categoryOf d)); simpl.
    + by rewrite Hown.
    + by rewrite own_snoc, alterOwn_snoc.
Qed.

Lemma concat_alterOwn (key : string) (d : D) (acc : list (string * G)) (g : G) :
  own key acc = Some g →
  concat (opts <$> (alterOwn key (push d) acc).*2)
  ≡ₚ concat (opts <$> acc.*2) ++ [mk d].
Proof.
  induction acc as [|[k w] acc IH]; simpl; [discriminate|].
  destruct (String.eqb k key); intros Hown; simpl.
  - rewrite opts_push. rewrite <- !(assoc_L (++)).
    apply Permutation_app_head. apply Permutation_app_comm.
  - rewrite <- (assoc_L (++)). apply Permutation_app_head. by apply IH.
Qed.

Lemma groupStep_grouped (acc acc' : list (string * G)) (seen : list D) (d : D) :
  grouped categoryOf opts mk Q acc seen →
  groupStep categoryOf create push acc d = Some acc' →
  grouped categoryOf opts mk Q acc' (seen ++ [d]).
Proof.
  intros [Hkeys Hown Hcover Hopts Hall]. rewrite groupStep_spec.
  destruct (own (categoryOf d) acc) as [g|] eqn:Hg.
  - intros [= <-]. pose proof (own_Some_elem _ _ _ Hg) as Hin.
    assert (Hk : categoryOf d ∈ acc.*1).
    { apply list_elem_of_fmap. by exists (categoryOf d, g). }
    split.
    + by rewrite alterOwn_keys.
    + rewrite alterOwn_keys. exact Hown.
    + rewrite alterOwn_keys. intros x Hx.
      apply elem_of_app in Hx as [Hx|Hx]; [by apply Hcover|].
      apply list_elem_of_singleton in Hx as ->. exact Hk.
    + intros k g' Hg'. apply alterOwn_elem in Hg' as [[Hne Hg']|[-> (w & Hw & ->)]];
        [| |exact Hkeys].
      * destruct (Hopts _ _ Hg') as (Ho & Hn & HQ). split; [|by split].
        rewrite filter_app, filter_cons, decide_False by congruence.
        by rewrite filter_nil, app_nil_r.
      * destruct (Hopts _ _ Hw) as (Ho & Hn & HQ). split; [|split].
        -- rewrite opts_push, Ho, filter_app, filter_cons, decide_True by reflexivity.
           by rewrite filter_nil, fmap_app.
        -- rewrite opts_push. by destruct (opts w).
        -- by apply Q_push.
    + rewrite fmap_app. simpl. rewrite <- Hall. by eapply concat_alterOwn.
  - destruct (inherited (categoryOf d)) eqn:Hinh; [discriminate|]. intros [= <-].
    apply own_None in Hg.
    split.
    + rewrite fmap_app. simpl. apply NoDup_app. split; [exact Hkeys|]. split.
      * intros x Hx Hx'. apply list_elem_of_singleton in Hx' as ->. contradiction.
      * apply NoDup_singleton.
    + rewrite fmap_app. intros k Hk. apply elem_of_app in Hk as [Hk|Hk]; [by apply Hown|].
      simpl in Hk. by apply list_elem_of_singleton in Hk as ->.
    + rewrite fmap_app. intros x Hx. apply elem_of_app.
      apply elem_of_app in Hx as [Hx|Hx]; [left; by apply Hcover|].
      apply list_elem_of_singleton in Hx as ->. right. simpl. by apply list_elem_of_singleton.
    + intros k g' Hg'. apply elem_of_app in Hg' as [Hg'|Hg'].
      * destruct (Hopts _ _ Hg') as (Ho & Hn & HQ). split; [|by split].
        assert (Hne : categoryOf d ≠ k).
        { intros <-. apply Hg. apply list_elem_of_fmap. by exists (categoryOf d, g'). }
        rewrite filter_app, filter_cons, decide_False by exact Hne.
        by rewrite filter_nil, app_nil_r.
      * apply list_elem_of_singleton in Hg' as [= -> ->]. split; [|split].
        -- rewrite opts_push, opts_create, filter_app, filter_cons, decide_True
             by reflexivity.
           rewrite filter_nil, fmap_app. f_equal.
           rewrite filter_none; [reflexivity|].
           intros x Hx Hc. apply Hg. rewrite <- Hc. by apply Hcover.
        -- rewrite opts_push. by destruct (opts (create (categoryOf d))).
        -- by apply Q_push.
    + rewrite !fmap_app, concat_app. simpl.
      rewrite opts_push, opts_create, app_nil_r. simpl. by rewrite Hall.
Qed.


Lemma grouped_nil : grouped categoryOf opts mk Q [] [].
Proof.
  split; simpl.
  - constructor.
  - intros k Hk. by apply elem_of_nil in Hk.
  - intros d Hd. by apply elem_of_nil in Hd.
  - intros k g Hg. by apply elem_of_nil in Hg.
  - reflexivity.
Qed.

Lemma groupLoop_grouped (dataTypes : list D) (acc acc' : list (string * G))
    (seen : list D) :
  grouped categoryOf opts mk Q acc seen →
  groupLoop categoryOf create push acc dataTypes = Some acc' →
  grouped categoryOf opts mk Q acc' (seen ++ dataTypes).
Proof.
  revert acc seen. induction dataTypes as [|d ds IH]; intros acc seen Hg; simpl.
  - intros [= <-]. by rewrite app_nil_r.
  - destruct (groupStep categoryOf create push acc d) as [acc1|] eqn:Hstep;
      [|discriminate].
    intros Hloop. rewrite (cons_middle d seen ds), (assoc_L (++)).
    eapply IH; [|exact Hloop]. by eapply groupStep_grouped.
Qed.

Lemma groupLoop_throws (dataTypes : list D) (acc : list (string * G)) (seen : list D) :
  grouped categoryOf opts mk Q acc seen →
  groupLoop categoryOf create push acc dataTypes = None
  ↔ ∃ d, d ∈ dataTypes ∧ inherited (categoryOf d) = true.
Proof.
  revert acc seen. induction dataTypes as [|d ds IH]; intros acc seen Hg; simpl.
  - split; [discriminate|]. intros (d & Hd & _). by apply elem_of_nil in Hd.
  - destruct (groupStep categoryOf create push acc d) as [acc1|] eqn:Hstep.
    + rewrite (IH acc1 (seen ++ [d])) by (by eapply groupStep_grouped).
      split.
      * intros (x & Hx & Hi). exists x. split; [|exact Hi]. apply elem_of_cons. by right.
      * intros (x & Hx & Hi). apply elem_of_cons in Hx as [->|Hx]; [|by exists x].
        exfalso. rewrite groupStep_spec in Hstep.
        destruct (own (categoryOf d) acc) as [g|] eqn:Hown.
        -- apply own_Some_elem in Hown.
           assert (Hk : categoryOf d ∈ acc.*1).
           { apply list_elem_of_fmap. by exists (categoryOf d, g). }
           apply (grouped_own _ _ _ _ _ _ Hg) in Hk. congruence.
        -- rewrite Hi in Hstep. discriminate.
    + split; [intros _|reflexivity]. exists d. split; [apply elem_of_cons; by left|].
      rewrite groupStep_spec in Hstep.
      destruct (own (categoryOf d) acc); [discriminate|].
      by destruct (inherited (categoryOf d)).
Qed.

End GroupingFacts.

Lemma concat_Permutation {A : Type} (l1 l2 : list (list A)) :
  l1 ≡ₚ l2 → concat l1 ≡ₚ concat l2.
Proof.
  induction 1 as [|x l l' _ IH|x y l|l l' l'' _ IH1 _ IH2]; simpl.
  - reflexivity.
  - by apply Permutation_app_head.
  - rewrite !(assoc_L (++)). apply Permutation_app_tail, Permutation_app_comm.
  - by etransitivity.
Qed.

Section SelectorFacts.
Import JsRuntime GroupingInv.

Variable localeCompare : string → string → Z.

Lemma selector_grouped (dataTypes : list DataTypeSelector.DataTypeMetadata)
    (acc : list (string * DataTypeSelector.DataTypeOptionGroup)) :
  groupLoop DataTypeSelector.categoryOf DataTypeSelector.emptyGroup
    DataTypeSelector.pushOption [] dataTypes = Some acc →
  grouped DataTypeSelector.categoryOf DataTypeSelector.options
    DataTypeSelector.optionOf (λ k g, DataTypeSelector.label g = k) acc dataTypes.
Proof.
  intros Hloop.
  by apply (groupLoop_grouped DataTypeSelector.categoryOf DataTypeSelector.emptyGroup
              DataTypeSelector.pushOption DataTypeSelector.options
              DataTypeSelector.optionOf (λ k g, DataTypeSelector.label g = k)
              (λ _, eq_refl) (λ _ _, eq_refl) (λ _, eq_refl) (λ _ _ _ H, H)
              dataTypes [] acc [] (grouped_nil _ _ _ _)).
Qed.

Lemma sortedGroups_elem
    (acc : list (string * DataTypeSelector.DataTypeOptionGroup))
    (g : DataTypeSelector.DataTypeOptionGroup) :
  g ∈ sortBy (λ a b, localeCompare (DataTypeSelector.label a) (DataTypeSelector.label b))
        (DataTypeSelector.sortOptions localeCompare <$> (ownEntries acc).*2)
  ↔ ∃ k g0, (k, g0) ∈ acc ∧ g = DataTypeSelector.sortOptions localeCompare g0.
Proof.
  rewrite sortBy_Permutation, list_elem_of_fmap. split.
  - intros (g0 & -> & Hg0). apply list_elem_of_fmap in Hg0 as ([k g1] & -> & Hin).
    rewrite ownEntries_Permutation in Hin. by exists k, g1.
  - intros (k & g0 & Hin & ->). exists g0. split; [reflexivity|].
    apply list_elem_of_fmap. exists (k, g0). split; [reflexivity|].
    by rewrite ownEntries_Permutation.
Qed.

Lemma concat_sortOptions (l : list DataTypeSelector.DataTypeOptionGroup) :
  concat (DataTypeSelector.options <$> (DataTypeSelector.sortOptions localeCompare <$> l))
  ≡ₚ concat (DataTypeSelector.options <$> l).
Proof.
  induction l as [|g l IH]; simpl; [reflexivity|].
  apply Permutation_app; [apply sortBy_Permutation | exact IH].
Qed.

(** X1. When the effect's grouping does not throw, the groups it stores
    partition the loaded data types: every data type has its option in the
    group labelled with its category ([Other] when the category is empty),
    every option of a group comes from a data type of that category, no
    group is empty, no label occurs twice, and all groups together hold each
    data type's option once. *)
Theorem selector_groups_partition (dataTypes : list DataTypeSelector.DataTypeMetadata)
    (groups : list DataTypeSelector.DataTypeOptionGroup) :
  DataTypeSelector.sortedGroups localeCompare dataTypes = Some groups →
  (∀ d, d ∈ dataTypes →
        ∃ g, g ∈ groups
             ∧ DataTypeSelector.label g = DataTypeSelector.categoryOf d
             ∧ DataTypeSelector.optionOf d ∈ DataTypeSelector.options g)
  ∧ (∀ g o, g ∈ groups → o ∈ DataTypeSelector.options g →
        ∃ d, d ∈ dataTypes ∧ o = DataTypeSelector.optionOf d
             ∧ DataTypeSelector.categoryOf d = DataTypeSelector.label g)
  ∧ (∀ g, g ∈ groups → DataTypeSelector.options g ≠ [])
  ∧ NoDup (DataTypeSelector.label <$> groups)
  ∧ concat (DataTypeSelector.options <$> groups) ≡ₚ DataTypeSelector.optionOf <$> dataTypes.
Proof.
  unfold DataTypeSelector.sortedGroups.
  destruct (groupLoop _ _ _ _ _) as [acc|] eqn:Hloop; [|discriminate].
  intros [= <-]. pose proof (selector_grouped _ _ Hloop) as [Hkeys Hown Hcover Hopts Hall].
  split; [|split; [|split; [|split]]].
  - intros d Hd. pose proof (Hcover d Hd) as Hk.
    apply list_elem_of_fmap in Hk as ([k g0] & Hk & Hin). simpl in Hk. subst k.
    destruct (Hopts _ _ Hin) as (Ho & _ & Hl).
    exists (DataTypeSelector.sortOptions localeCompare g0). split; [|split].
    + apply sortedGroups_elem. exists (DataTypeSelector.categoryOf d), g0. by split.
    + exact Hl.
    + simpl. rewrite sortBy_Permutation, Ho. apply list_elem_of_fmap.
      exists d. split; [reflexivity|]. by apply list_elem_of_filter.
  - intros g o Hg Ho. apply sortedGroups_elem in Hg as (k & g0 & Hin & ->).
    simpl in Ho. rewrite sortBy_Permutation in Ho.
    destruct (Hopts _ _ Hin) as (Hopt & _ & Hl). rewrite Hopt in Ho.
    apply list_elem_of_fmap in Ho as (d & -> & Hd).
    apply list_elem_of_filter in Hd as [Hc Hd].
    exists d. split; [exact Hd|]. split; [reflexivity|]. simpl. congruence.
  - intros g Hg. apply sortedGroups_elem in Hg as (k & g0 & Hin & ->).
    destruct (Hopts _ _ Hin) as (_ & Hne & _). simpl.
    intros Hnil. apply Hne. apply Permutation_nil_r. rewrite <- Hnil.
    symmetry. apply sortBy_Permutation.
  - rewrite sortBy_Permutation, <- list_fmap_compose.
    assert (Hlab : (DataTypeSelector.label ∘ DataTypeSelector.sortOptions localeCompare)
                     <$> (ownEntries acc).*2 ≡ₚ acc.*1).
    { rewrite ownEntries_Permutation. clear -Hopts.
      induction acc as [|[k g] acc IH]; simpl; [reflexivity|].
      destruct (Hopts k g) as (_ & _ & ->); [apply elem_of_cons; by left|].
      apply perm_skip. apply IH. intros k' g' Hin. apply Hopts, elem_of_cons. by right. }
    by rewrite Hlab.
  - rewrite <- Hall.
    etransitivity; [apply concat_Permutation, fmap_Permutation, sortBy_Permutation|].
    etransitivity; [apply concat_sortOptions|].
    apply concat_Permutation, fmap_Permutation, fmap_Permutation, ownEntries_Permutation.
Qed.

(** X2. The effect's grouping loop throws exactly when the category of some
    loaded data type names a property of [Object.prototype] (such as
    [constructor] or [toString]): the guard finds the inherited value, creates
    no group, and the push has nothing to push onto. *)
Theorem selector_groups_throw (dataTypes : list DataTypeSelector.DataTypeMetadata) :
  DataTypeSelector.sortedGroups localeCompare dataTypes = None
  ↔ ∃ d, d ∈ dataTypes ∧ DataTypeSelector.categoryOf d ∈ objectPrototypeKeys.
Proof.
  unfold DataTypeSelector.sortedGroups.
  pose proof (groupLoop_throws DataTypeSelector.categoryOf DataTypeSelector.emptyGroup
                DataTypeSelector.pushOption DataTypeSelector.options
                DataTypeSelector.optionOf (λ k g, DataTypeSelector.label g = k)
                (λ _, eq_refl) (λ _ _, eq_refl) (λ _, eq_refl) (λ _ _ _ H, H)
                dataTypes [] [] (grouped_nil _ _ _ _)) as Hthrows.
  destruct (groupLoop _ _ _ _ _) as [acc|] eqn:Hloop.
  - split; [discriminate|]. intros (d & Hd & Hk). exfalso.
    assert (Hnone : Some acc = None); [|discriminate].
    apply Hthrows. exists d. split; [exact Hd|]. by apply bool_decide_eq_true.
  - split; [intros _|reflexivity].
    destruct (proj1 Hthrows eq_refl) as (d & Hd & Hk).
    exists d. split; [exact Hd|]. by apply bool_decide_eq_true in Hk.
Qed.

(** X3. When [localeCompare] is total, the stored groups are in ascending
    order of their labels and the options of every group in ascending order
    of theirs. *)
Theorem selector_groups_sorted (dataTypes : list DataTypeSelector.DataTypeMetadata)
    (groups : list DataTypeSelector.DataTypeOptionGroup) :
  (∀ a b, (localeCompare a b ≤ 0)%Z ∨ (localeCompare b a ≤ 0)%Z) →
  DataTypeSelector.sortedGroups localeCompare dataTypes = Some groups →
  Sorted (λ a b, (localeCompare (DataTypeSelector.label a) (DataTypeSelector.label b) ≤ 0)%Z)
    groups
  ∧ ∀ g, g ∈ groups →
      Sorted (λ a b, (localeCompare (DataTypeSelector.Opt.label a)
                        (DataTypeSelector.Opt.label b) ≤ 0)%Z)
        (DataTypeSelector.options g).
Proof.
  intros Htotal. unfold DataTypeSelector.sortedGroups.
  destruct (groupLoop _ _ _ _ _) as [acc|] eqn:Hloop; [|discriminate].
  intros [= <-]. split.
  - apply (sortBy_Sorted (λ a b, localeCompare (DataTypeSelector.label a)
                                   (DataTypeSelector.label b))).
    intros a b. apply Htotal.
  - intros g Hg. apply sortedGroups_elem in Hg as (k & g0 & _ & ->). simpl.
    apply (sortBy_Sorted (λ a b, localeCompare (DataTypeSelector.Opt.label a)
                                   (DataTypeSelector.Opt.label b))).
    intros a b. apply Htotal.
Qed.

End SelectorFacts.

Section Selector2Facts.
Import JsRuntime GroupingInv.

Variable localeCompare : string → string → Z.

Lemma selector2_grouped (entries : list DataTypeSelector2.Entry)
    (acc : list (string * list DataTypeSelector2.DataTypeOption)) :
  groupLoop DataTypeSelector2.categoryOf (λ _, [])
    (λ entry group, group ++ [DataTypeSelector2.optionOf entry]) [] entries = Some acc →
  grouped DataTypeSelector2.categoryOf (λ group, group)
    DataTypeSelector2.optionOf (λ _ _, True) acc entries.
Proof.
  intros Hloop.
  by apply (groupLoop_grouped DataTypeSelector2.categoryOf (λ _, [])
              (λ entry group, group ++ [DataTypeSelector2.optionOf entry])
              (λ group, group) DataTypeSelector2.optionOf (λ _ _, True)
              (λ _, eq_refl) (λ _ _, eq_refl) (λ _, I) (λ _ _ _ _, I)
              entries [] acc [] (grouped_nil _ _ _ _)).
Qed.

Lemma getDataTypeOptions_elem
    (acc : list (string * list DataTypeSelector2.DataTypeOption))
    (k : string) (os : list DataTypeSelector2.DataTypeOption) :
  (k, os) ∈ sortBy (λ a b, localeCompare a.1 b.1)
              (ownEntries
                 (prod_map (λ key : string, key)
                    (sortBy (λ a b, localeCompare (DataTypeSelector2.label a)
                                      (DataTypeSelector2.label b)))
                  <$> acc))
  ↔ ∃ os0, (k, os0) ∈ acc
           ∧ os = sortBy (λ a b, localeCompare (DataTypeSelector2.label a)
                                   (DataTypeSelector2.label b)) os0.
Proof.
  rewrite sortBy_Permutation, ownEntries_Permutation, list_elem_of_fmap. split.
  - intros ([k0 os0] & [= -> ->] & Hin). by exists os0.
  - intros (os0 & Hin & ->). by exists (k, os0).
Qed.

(** X4. When [getDataTypeOptions] does not throw, its groups partition the
    entries of [dataTypes]: every entry has its option in the group of its
    category, every option of a group carries that group's label as its
    [category] and comes from an entry, no group is empty, no label occurs
    twice, and all groups together hold each entry's option once. *)
Theorem selector2_groups_partition (entries : list DataTypeSelector2.Entry)
    (groups : list (string * list DataTypeSelector2.DataTypeOption)) :
  DataTypeSelector2.getDataTypeOptions localeCompare (Some entries) = Some groups →
  (∀ e, e ∈ entries →
        ∃ os, (DataTypeSelector2.categoryOf e, os) ∈ groups
              ∧ DataTypeSelector2.optionOf e ∈ os)
  ∧ (∀ lab os o, (lab, os) ∈ groups → o ∈ os →
        DataTypeSelector2.category o = lab
        ∧ ∃ e, e ∈ entries ∧ o = DataTypeSelector2.optionOf e)
  ∧ (∀ lab os, (lab, os) ∈ groups → os ≠ [])
  ∧ NoDup groups.*1
  ∧ concat groups.*2 ≡ₚ DataTypeSelector2.optionOf <$> entries.
Proof.
  unfold DataTypeSelector2.getDataTypeOptions.
  destruct (groupLoop _ _ _ _ _) as [acc|] eqn:Hloop; [|discriminate].
  intros [= <-]. pose proof (selector2_grouped _ _ Hloop) as [Hkeys Hown Hcover Hopts Hall].
  split; [|split; [|split; [|split]]].
  - intros e He. pose proof (Hcover e He) as Hk.
    apply list_elem_of_fmap in Hk as ([k os0] & Hk & Hin). simpl in Hk. subst k.
    destruct (Hopts _ _ Hin) as (Ho & _ & _).
    eexists. split.
    + apply getDataTypeOptions_elem. exists os0. by split.
    + rewrite sortBy_Permutation, Ho. apply list_elem_of_fmap.
      exists e. split; [reflexivity|]. by apply list_elem_of_filter.
  - intros lab os o Hg Ho. apply getDataTypeOptions_elem in Hg as (os0 & Hin & ->).
    rewrite sortBy_Permutation in Ho.
    destruct (Hopts _ _ Hin) as (Hopt & _ & _). rewrite Hopt in Ho.
    apply list_elem_of_fmap in Ho as (e & -> & He).
    apply list_elem_of_filter in He as [Hc He].
    split; [exact Hc|]. by exists e.
  - intros lab os Hg. apply getDataTypeOptions_elem in Hg as (os0 & Hin & ->).
    destruct (Hopts _ _ Hin) as (_ & Hne & _).
    intros Hnil. apply Hne. apply Permutation_nil_r. rewrite <- Hnil.
    symmetry. apply sortBy_Permutation.
  - rewrite sortBy_Permutation, ownEntries_Permutation, <- list_fmap_compose.
    assert (Hfst : (fst ∘ prod_map (λ key : string, key)
                      (sortBy (λ a b, localeCompare (DataTypeSelector2.label a)
                                        (DataTypeSelector2.label b))))
                     <$> acc = acc.*1).
    { apply list_fmap_ext. by intros i [k os] _. }
    by rewrite Hfst.
  - rewrite <- Hall.
    etransitivity;
      [apply concat_Permutation, fmap_Permutation; etransitivity;
         [apply sortBy_Permutation | apply ownEntries_Permutation]|].
    clear. induction acc as [|[k os] acc IH]; simpl; [reflexivity|].
    apply Permutation_app; [apply sortBy_Permutation | exact IH].
Qed.

(** X5. [getDataTypeOptions] returns no group for [null], and throws exactly
    when [dataTypes] has an entry whose category names a property of
    [Object.prototype]. *)
Theorem selector2_groups_throw (dataTypes : option (list DataTypeSelector2.Entry)) :
  DataTypeSelector2.getDataTypeOptions localeCompare None = Some []
  ∧ (DataTypeSelector2.getDataTypeOptions localeCompare dataTypes = None
     ↔ ∃ entries e, dataTypes = Some entries ∧ e ∈ entries
                    ∧ DataTypeSelector2.categoryOf e ∈ objectPrototypeKeys).
Proof.
  split; [reflexivity|].
  destruct dataTypes as [entries|]; simpl.
  - pose proof (groupLoop_throws DataTypeSelector2.categoryOf (λ _, [])
                  (λ entry group, group ++ [DataTypeSelector2.optionOf entry])
                  (λ group, group) DataTypeSelector2.optionOf (λ _ _, True)
                  (λ _, eq_refl) (λ _ _, eq_refl) (λ _, I) (λ _ _ _ _, I)
                  entries [] [] (grouped_nil _ _ _ _)) as Hthrows.
    destruct (groupLoop _ _ _ _ _) as [acc|] eqn:Hloop.
    + split; [discriminate|]. intros (entries' & e & [= <-] & He & Hk). exfalso.
      assert (Hnone : Some acc = None); [|discriminate].
      apply Hthrows. exists e. split; [exact He|]. by apply bool_decide_eq_true.
    + split; [intros _|reflexivity].
      destruct (proj1 Hthrows eq_refl) as (e & He & Hk).
      exists entries, e. split; [reflexivity|]. split; [exact He|].
      by apply bool_decide_eq_true in Hk.
  - split; [discriminate|]. intros (entries & e & Heq & _). discriminate.
Qed.

(** X6. When [localeCompare] is total, the groups of [getDataTypeOptions] are
    in ascending order of their labels and the options of every group in
    ascending order of theirs. *)
Theorem selector2_groups_sorted (entries : list DataTypeSelector2.Entry)
    (groups : list (string * list DataTypeSelector2.DataTypeOption)) :
  (∀ a b, (localeCompare a b ≤ 0)%Z ∨ (localeCompare b a ≤ 0)%Z) →
  DataTypeSelector2.getDataTypeOptions localeCompare (Some entries) = Some groups →
  Sorted (λ a b, (localeCompare a.1 b.1 ≤ 0)%Z) groups
  ∧ ∀ lab os, (lab, os) ∈ groups →
      Sorted (λ a b, (localeCompare (DataTypeSelector2.label a)
                        (DataTypeSelector2.label b) ≤ 0)%Z) os.
Proof.
  intros Htotal. unfold DataTypeSelector2.getDataTypeOptions.
  destruct (groupLoop _ _ _ _ _) as [acc|] eqn:Hloop; [|discriminate].
  intros [= <-]. split.
  - apply (sortBy_Sorted (λ a b : string * list DataTypeSelector2.DataTypeOption,
                            localeCompare a.1 b.1)).
    intros a b. apply Htotal.
  - intros lab os Hg. apply getDataTypeOptions_elem in Hg as (os0 & _ & ->).
    apply (sortBy_Sorted (λ a b, localeCompare (DataTypeSelector2.label a)
                                   (DataTypeSelector2.label b))).
    intros a b. apply Htotal.
Qed.

End Selector2Facts.

Lemma findType_Some (dataTypes : list DataTypeSelector.DataTypeMetadata)
    (selected : string) (d : DataTypeSelector.DataTypeMetadata) :
  DataTypeSelector.findType dataTypes selected = Some d →
  DataTypeSelector.type d = selected ∧ d ∈ dataTypes.
Proof.
  unfold DataTypeSelector.findType. intros H. apply find_some in H as [Hin Heq].
  split; [by apply String.eqb_eq | by apply list_elem_of_In].
Qed.

Lemma findType_None (dataTypes : list DataTypeSelector.DataTypeMetadata)
    (selected : string) :
  DataTypeSelector.findType dataTypes selected = None
  ↔ ∀ d, d ∈ dataTypes → DataTypeSelector.type d ≠ selected.
Proof.
  unfold DataTypeSelector.findType. split.
  - intros H d Hd Heq. apply list_elem_of_In in Hd.
    pose proof (find_none _ _ H d Hd) as Hn. simpl in Hn.
    apply String.eqb_neq in Hn. contradiction.
  - intros H. destruct (find _ _) as [d|] eqn:Hf; [|reflexivity].
    apply find_some in Hf as [Hin Heq]. apply String.eqb_eq in Heq.
    apply list_elem_of_In in Hin. by destruct (H d Hin).
Qed.

(** X7. Changing the type when the data types are loaded selects a loaded
    data type of that very type, or nothing exactly when none is loaded with
    it, and tells the parent the same; before the data types are loaded the
    shown metadata is left as it was. The option groups are never touched. *)
Theorem type_change_selects_metadata
    (dataTypes : list DataTypeSelector.DataTypeMetadata) (selected : string)
    (hasOnMetadataChange : bool) (st : DataTypeSelector.State) :
  let after := DataTypeSelector.handleTypeChange (Some dataTypes) selected
                 hasOnMetadataChange st in
  (∀ d, DataTypeSelector.selectedTypeMetadata after.1 = Some d →
        DataTypeSelector.type d = selected ∧ d ∈ dataTypes)
  ∧ (DataTypeSelector.selectedTypeMetadata after.1 = None
     ↔ ∀ d, d ∈ dataTypes → DataTypeSelector.type d ≠ selected)
  ∧ after.2
    = DataTypeSelector.OnChange selected
        :: (if hasOnMetadataChange
            then [DataTypeSelector.OnMetadataChange
                    (DataTypeSelector.selectedTypeMetadata after.1)]
            else [])
  ∧ DataTypeSelector.dataTypeOptions after.1 = DataTypeSelector.dataTypeOptions st
  ∧ DataTypeSelector.handleTypeChange None selected hasOnMetadataChange st
    = (st, [DataTypeSelector.OnChange selected]).
Proof.
  simpl. split; [|split; [|split; [|split]]]; try reflexivity.
  - intros d. apply findType_Some.
  - apply findType_None.
Qed.

(** * Further properties of the list components *)

Section ListViewFacts.
Import ListCore ListView.

Lemma handleDeleteConfirm_selected (st : State) (responseData : bool) :
  selectedSchedule (handleDeleteConfirm st responseData).1 = selectedSchedule st.
Proof.
  unfold handleDeleteConfirm.
  by destruct (selectedSchedule st) eqn:Hs, responseData.
Qed.

Lemma handleAll_selected (events seen : list Event) (st : State) :
  (∀ s, selectedSchedule st = Some s → DeleteClick s ∈ seen) →
  (showDeleteModal st = true → is_Some (selectedSchedule st)) →
  (∀ s, selectedSchedule (handleAll events st) = Some s → DeleteClick s ∈ seen ++ events)
  ∧ (showDeleteModal (handleAll events st) = true →
     is_Some (selectedSchedule (handleAll events st))).
Proof.
  revert seen st. induction events as [|e events IH]; intros seen st Hsel Hopen; simpl.
  - by rewrite app_nil_r.
  - rewrite (cons_middle e seen events), (assoc_L (++)). apply IH.
    + intros s Hs. apply elem_of_app.
      destruct e as [v|v|p|n|s'|ok|]; simpl in Hs;
        try (left; apply Hsel; exact Hs).
      * injection Hs as ->. right. by apply list_elem_of_singleton.
      * left. apply Hsel. by rewrite handleDeleteConfirm_selected in Hs.
    + destruct e as [v|v|p|n|s'|ok|]; simpl; try exact Hopen; try discriminate.
      * by eexists.
      * rewrite handleDeleteConfirm_selected. intros Ho. apply Hopen.
        unfold handleDeleteConfirm in Ho.
        by destruct (selectedSchedule st), ok.
Qed.

End ListViewFacts.

(** X8. Whatever the user does on the list, the delete modal is open only
    for a schedule whose delete button was clicked, and confirming sends a
    delete request only for such a schedule. *)
Theorem delete_only_what_was_clicked (events : list ListCore.Event) :
  let st := ListView.handleAll events ListCore.initialState in
  (ListCore.showDeleteModal st = true →
   ∃ s, ListCore.selectedSchedule st = Some s ∧ ListCore.DeleteClick s ∈ events)
  ∧ (∀ responseData scheduleId,
       ListCore.ApiCall (ListCore.DeleteSchedule scheduleId)
         ∈ (ListCore.handleDeleteConfirm st responseData).2 →
       ∃ s, ListCore.DeleteClick s ∈ events ∧ id s = scheduleId).
Proof.
  intros st.
  destruct (handleAll_selected events [] ListCore.initialState) as [Hsel Hopen];
    [discriminate | discriminate |]. fold st in Hsel, Hopen.
  split.
  - intros Ho. destruct (Hopen Ho) as [s Hs]. exists s. split; [exact Hs | by apply Hsel].
  - intros responseData scheduleId Hin. unfold ListCore.handleDeleteConfirm in Hin.
    destruct (ListCore.selectedSchedule st) as [s|] eqn:Hs;
      [|by apply elem_of_nil in Hin].
    exists s. split; [by apply Hsel|].
    destruct responseData; simpl in Hin;
      repeat (apply elem_of_cons in Hin as [Hin|Hin]; [by simplify_eq|]);
      by apply elem_of_nil in Hin.
Qed.

(** X9. The refresh effect stays silent exactly when the page, the page
    size, the search term, the status filter and the identity of
    [fetchSchedules] are all what they were at the previous render; on the
    first render it always fetches. *)
Theorem refresh_effect_silent_iff (before st : ListCore.State) (prevFetch fetchId : N) :
  ListCore.refreshEffect None fetchId st ≠ []
  ∧ (ListCore.refreshEffect (Some (ListCore.refreshDeps prevFetch before)) fetchId st = []
     ↔ ListCore.currentPage before = ListCore.currentPage st
       ∧ ListCore.pageSize before = ListCore.pageSize st
       ∧ ListCore.searchTerm before = ListCore.searchTerm st
       ∧ ListCore.statusFilter before = ListCore.statusFilter st
       ∧ prevFetch = fetchId).
Proof.
  split; [discriminate|].
  unfold ListCore.refreshEffect, ListCore.depsChanged, ListCore.refreshDeps.
  case_bool_decide as Heq; simpl.
  - split; [intros _|reflexivity]. by simplify_eq.
  - split; [discriminate|]. intros (Hp & Hs & Hq & Hf & Hid).
    exfalso. apply Heq. by rewrite Hp, Hs, Hq, Hf, Hid.
Qed.

(** X10. The badge colour is [default] exactly for strings that are not one
    of the four status spellings, and different statuses get different colours. *)
Theorem badge_color_default_iff (st : string) :
  (ListCore.getStatusBadgeColor st = "default" ↔ st ∉ wire_status_values)
  ∧ (∀ a b : Status,
       ListCore.getStatusBadgeColor (status_str a)
       = ListCore.getStatusBadgeColor (status_str b) → a = b).
Proof.
  split.
  - unfold ListCore.getStatusBadgeColor, wire_status_values.
    rewrite !not_elem_of_cons.
    destruct (String.eqb_spec st "ACTIVE") as [->|H1]; [split; [discriminate|tauto]|].
    destruct (String.eqb_spec st "PAUSED") as [->|H2]; [split; [discriminate|tauto]|].
    destruct (String.eqb_spec st "COMPLETED") as [->|H3]; [split; [discriminate|tauto]|].
    destruct (String.eqb_spec st "ERROR") as [->|H4]; [split; [discriminate|tauto]|].
    split; [intros _|reflexivity]. repeat split; try assumption. apply not_elem_of_nil.
  - intros [] []; simpl; intros H; try reflexivity; discriminate.
Qed.

(** X11. With no request in flight, a click on the pause/activate control
    does the same in both list variants: it pauses an ACTIVE schedule,
    activates a PAUSED or ERROR one, and does nothing for a COMPLETED one; and
    in the variant with native buttons the control of an ACTIVE schedule does
    nothing while a pause is in progress. *)
Theorem toggle_click_by_status (st : ListCore.State) (s : Schedule) (responseData : bool) :
  (ListCore.clickControl ListCore.click st
     (ScheduleList.toggleControl false false s) responseData).2
  = (ListCore.clickControl ListCore.buttonClick st
       (ScheduleList2.toggleControl false false s) responseData).2
  ∧ (ListCore.clickControl ListCore.click st
       (ScheduleList.toggleControl false false s) responseData).2
    = match status s with
      | ACTIVE => ListCore.handlePause st s responseData
      | COMPLETED => []
      | PAUSED | ERROR => ListCore.handleActivate st s responseData
      end
  ∧ (∀ isActivating,
       status s = ACTIVE →
       ListCore.clickControl ListCore.click st
         (ScheduleList.toggleControl true isActivating s) responseData = (st, [])).
Proof.
  unfold ListCore.clickControl, ListCore.buttonClick, ListCore.click,
    ScheduleList.toggleControl, ScheduleList2.toggleControl.
  split; [|split].
  - by destruct (status s).
  - by destruct (status s).
  - intros isActivating Hs. by rewrite Hs.
Qed.

(** X12. The error banner shows the first non-empty message among the fetch,
    activate, pause and delete errors, in that order, and is absent exactly
    when all four are missing or empty. *)
Theorem error_alert_first_message (error activateError pauseError deleteError : option string) :
  ListView.errorAlert error activateError pauseError deleteError
  = head (filter (λ e, truthy_opt e = true)
            [error; activateError; pauseError; deleteError]) ≫= (λ e, e).
Proof.
  unfold ListView.errorAlert, ListView.aggregatedError, ListView.or_else.
  rewrite !filter_cons, filter_nil.
  destruct (truthy_opt error) eqn:H1, (truthy_opt activateError) eqn:H2,
    (truthy_opt pauseError) eqn:H3, (truthy_opt deleteError) eqn:H4;
    simpl; rewrite ?H1, ?H2, ?H3, ?H4; reflexivity.
Qed.

(** * Properties of the schedule form *)

Section FormFacts.
Import ScheduleForm ScheduleFormEdit.

Lemma if_singleton_nil {A : Type} (c : bool) (x : A) :
  (if c then [x] else []) = [] ↔ c = false.
Proof. destruct c; split; (reflexivity || discriminate). Qed.

Lemma validationErrors_nil (formData : ScheduleFormData) :
  validationErrors formData = []
  ↔ blank (name formData) = false
    ∧ truthy_string (templateId formData) = true
    ∧ leq_zero (rowCount formData) = false
    ∧ (scheduleType formData = ONE_TIME → truthy_opt (nextRunTime formData) = true)
    ∧ (scheduleType formData = RECURRING → truthy_opt (cronExpression formData) = true).
Proof.
  unfold validationErrors. rewrite !app_nil, !if_singleton_nil.
  destruct (blank (name formData)), (truthy_string (templateId formData)),
    (leq_zero (rowCount formData)),
    (scheduleType formData), (truthy_opt (nextRunTime formData)),
    (truthy_opt (cronExpression formData)); simpl;
    intuition (discriminate || congruence).
Qed.

Lemma handleSubmit_inv (routeId : option string) (formData : ScheduleFormData)
    (payload : SchedulePayload) :
  handleSubmit routeId formData = Some payload →
  validationErrors formData = [] ∧ payload = schedulePayload routeId formData.
Proof.
  unfold handleSubmit, validateForm.
  destruct (validationErrors formData); [|discriminate].
  intros [= <-]. by split.
Qed.

Lemma leq_zero_false (x : JsNumber) :
  leq_zero x = false ↔ x = NaN ∨ ∃ n, x = Int n ∧ (0 < n)%Z.
Proof.
  destruct x as [n|]; simpl.
  - rewrite Z.leb_gt. split.
    + intros Hn. right. by exists n.
    + intros [[=]|(m & [= <-] & Hm)]. exact Hm.
  - split; [by left | reflexivity].
Qed.

Lemma validationErrors_keys (formData : ScheduleFormData) :
  NoDup (validationErrors formData).*1
  ∧ (scheduleType formData = ONE_TIME →
     "cronExpression" ∉ (validationErrors formData).*1)
  ∧ (scheduleType formData = RECURRING →
     "nextRunTime" ∉ (validationErrors formData).*1).
Proof.
  unfold validationErrors.
  destruct (blank (name formData)), (truthy_string (templateId formData)),
    (leq_zero (rowCount formData)), (scheduleType formData),
    (truthy_opt (nextRunTime formData)), (truthy_opt (cronExpression formData));
    simpl; (split; [|split]); try discriminate; intros;
    apply (bool_decide_unpack _); vm_compute; exact I.
Qed.

End FormFacts.

(** X13. The form sends a request exactly when the name is not blank (it
    has a character that [trim] keeps), a template is chosen, the row count
    is not a number at most 0, and the trigger field of the selected schedule
    type is filled in.  The row count passes when it is positive and also
    when it is [NaN], since [NaN <= 0] is false: a cleared Row Count field is
    sent.  The field of the other type is never the reason for a refusal, and
    no field is reported twice. *)
Theorem form_submits_iff (routeId : option string)
    (formData : ScheduleForm.ScheduleFormData) :
  (is_Some (ScheduleForm.handleSubmit routeId formData)
   ↔ ScheduleForm.blank (ScheduleForm.name formData) = false
     ∧ ScheduleForm.templateId formData ≠ ""
     ∧ (ScheduleForm.rowCount formData = ScheduleForm.NaN
        ∨ ∃ n, ScheduleForm.rowCount formData = ScheduleForm.Int n ∧ (0 < n)%Z)
     ∧ (ScheduleForm.scheduleType formData = ONE_TIME →
        truthy_opt (ScheduleForm.nextRunTime formData) = true)
     ∧ (ScheduleForm.scheduleType formData = RECURRING →
        truthy_opt (ScheduleForm.cronExpression formData) = true))
  ∧ NoDup (ScheduleForm.validationErrors formData).*1
  ∧ (ScheduleForm.scheduleType formData = ONE_TIME →
     "cronExpression" ∉ (ScheduleForm.validationErrors formData).*1)
  ∧ (ScheduleForm.scheduleType formData = RECURRING →
     "nextRunTime" ∉ (ScheduleForm.validationErrors formData).*1).
Proof.
  split; [|apply validationErrors_keys].
  rewrite <- truthy_string_nonempty, <- leq_zero_false, <- validationErrors_nil.
  unfold ScheduleForm.handleSubmit, ScheduleForm.validateForm.
  destruct (ScheduleForm.validationErrors formData) as [|e errors]; simpl.
  - split; [intros _; reflexivity | intros _; by eexists].
  - split; [intros [p Hp]; discriminate | discriminate].
Qed.

Lemma cleared_row_count_is_sent :
  is_Some (ScheduleForm.handleSubmit None SelectorSamples.clearedRowCountForm).
Proof.
  apply (proj1 (form_submits_iff None SelectorSamples.clearedRowCountForm)).
  simpl. split; [reflexivity|]. split; [discriminate|]. split; [by left|].
  split; [discriminate | reflexivity].
Defined.

(** A name made of a space, a no-break space and a tab is empty once trimmed:
    the form reports the name and sends nothing. *)
Example space_named_form_is_refused :
  ScheduleForm.validationErrors SelectorSamples.spaceNamedForm
  = [("name", "Name is required")]
  ∧ ScheduleForm.handleSubmit None SelectorSamples.spaceNamedForm = None.
Proof. split; reflexivity. Qed.

(** X14. A request the form sends carries exactly one trigger: a non-empty
    [nextRunTime] and no [cronExpression] for ONE_TIME, a non-empty
    [cronExpression] and no [nextRunTime] for RECURRING; its [id] is the
    route's id in edit mode and absent otherwise, and the other fields are
    the form's. *)
Theorem payload_has_one_trigger (routeId : option string)
    (formData : ScheduleForm.ScheduleFormData) (payload : ScheduleForm.SchedulePayload) :
  ScheduleForm.handleSubmit routeId formData = Some payload →
  ScheduleForm.form payload = formData
  ∧ ScheduleForm.payloadId payload = (if truthy_opt routeId then routeId else None)
  ∧ match ScheduleForm.scheduleType formData with
    | ONE_TIME =>
        ScheduleForm.payloadNextRunTime payload = ScheduleForm.nextRunTime formData
        ∧ truthy_opt (ScheduleForm.payloadNextRunTime payload) = true
        ∧ ScheduleForm.payloadCronExpression payload = None
    | RECURRING =>
        ScheduleForm.payloadCronExpression payload = ScheduleForm.cronExpression formData
        ∧ truthy_opt (ScheduleForm.payloadCronExpression payload) = true
        ∧ ScheduleForm.payloadNextRunTime payload = None
    end.
Proof.
  intros Hsub. apply handleSubmit_inv in Hsub as [Hnil ->].
  apply validationErrors_nil in Hnil as (_ & _ & _ & Hone & Hrec).
  unfold ScheduleForm.schedulePayload; simpl.
  split; [reflexivity|]. split; [reflexivity|].
  destruct (ScheduleForm.scheduleType formData); simpl; auto.
Qed.

(** X15. Opening a schedule for editing reads it as RECURRING exactly when
    its [cronExpression] is present and not empty; saved without a change, a
    recurring schedule is sent with the cron expression it was loaded with and
    without a run time, a one-time schedule with its run time as converted for
    the date input and without a cron expression.  Loading fails exactly when
    the stored run time is not a date [toISOString] accepts. *)
Theorem loaded_schedule_is_saved_unchanged (toInputValue : string → option string)
    (schedule : ScheduleFormEdit.LoadedSchedule) :
  (ScheduleFormEdit.loadedFormData toInputValue schedule = None
   ↔ ∃ t, ScheduleFormEdit.l_nextRunTime schedule = Some t ∧ t ≠ ""
          ∧ toInputValue t = None)
  ∧ ∀ formData,
      ScheduleFormEdit.loadedFormData toInputValue schedule = Some formData →
      (ScheduleForm.scheduleType formData = RECURRING
       ↔ truthy_opt (ScheduleFormEdit.l_cronExpression schedule) = true)
      ∧ ∀ routeId payload,
          ScheduleForm.handleSubmit routeId formData = Some payload →
          if truthy_opt (ScheduleFormEdit.l_cronExpression schedule)
          then ScheduleForm.payloadCronExpression payload
               = ScheduleFormEdit.l_cronExpression schedule
               ∧ ScheduleForm.payloadNextRunTime payload = None
          else ScheduleForm.payloadCronExpression payload = None
               ∧ ∃ t, ScheduleFormEdit.l_nextRunTime schedule = Some t
                      ∧ ScheduleForm.payloadNextRunTime payload = toInputValue t.
Proof.
  unfold ScheduleFormEdit.loadedFormData. split.
  - destruct (ScheduleFormEdit.l_nextRunTime schedule) as [t|] eqn:Ht; simpl.
    + destruct (truthy_string t) eqn:Htt.
      * destruct (toInputValue t) eqn:Hconv.
        -- split; [discriminate|]. intros (t' & [= <-] & _ & Hnone). congruence.
        -- split; [intros _|reflexivity]. exists t. by rewrite <- truthy_string_nonempty.
      * split; [discriminate|]. intros (t' & [= <-] & Hne & _).
        apply truthy_string_nonempty in Hne. congruence.
    + split; [discriminate|]. intros (t' & Hs & _). discriminate.
  - intros formData Hload.
    destruct (if truthy_opt (ScheduleFormEdit.l_nextRunTime schedule) then _ else _)
      as [runTime|] eqn:Hrun; [|discriminate].
    injection Hload as <-. split.
    + simpl. by destruct (truthy_opt (ScheduleFormEdit.l_cronExpression schedule)).
    + intros routeId payload Hsub.
      apply handleSubmit_inv in Hsub as [Hnil ->].
      apply validationErrors_nil in Hnil as (_ & _ & _ & Hone & _). simpl in Hone.
      unfold ScheduleForm.schedulePayload; simpl.
      destruct (truthy_opt (ScheduleFormEdit.l_cronExpression schedule)) eqn:Hc; simpl.
      * split; [|reflexivity].
        by destruct (ScheduleFormEdit.l_cronExpression schedule).
      * split; [reflexivity|]. specialize (Hone eq_refl).
        destruct (ScheduleFormEdit.l_nextRunTime schedule) as [t|]; simpl in *.
        -- exists t. destruct (truthy_string t); [by rewrite Hrun|].
           injection Hrun as <-. discriminate.
        -- injection Hrun as <-. discriminate.
Qed.

(** X16. Choosing a cron preset fills in that expression and changes nothing
    else: every other field of the form keeps its value.  So the form no
    longer reports the cron expression as missing and reports the other
    fields as before.  Choosing the placeholder changes nothing at all. *)
Theorem preset_fills_cron_expression (presetLabel value : string)
    (formData : ScheduleForm.ScheduleFormData) :
  (presetLabel, value) ∈ ScheduleFormEdit.cronPresets →
  let after := ScheduleFormEdit.handleCronPresetSelect value formData in
  ScheduleForm.cronExpression after = Some value
  ∧ (ScheduleForm.name after = ScheduleForm.name formData
     ∧ ScheduleForm.templateId after = ScheduleForm.templateId formData
     ∧ ScheduleForm.description after = ScheduleForm.description formData
     ∧ ScheduleForm.outputFormat after = ScheduleForm.outputFormat formData
     ∧ ScheduleForm.rowCount after = ScheduleForm.rowCount formData
     ∧ ScheduleForm.scheduleType after = ScheduleForm.scheduleType formData
     ∧ ScheduleForm.nextRunTime after = ScheduleForm.nextRunTime formData
     ∧ ScheduleForm.active after = ScheduleForm.active formData)
  ∧ ("cronExpression" ∉ (ScheduleForm.validationErrors after).*1)
  ∧ filter (λ e, e.1 ≠ "cronExpression") (ScheduleForm.validationErrors after)
    = filter (λ e, e.1 ≠ "cronExpression") (ScheduleForm.validationErrors formData)
  ∧ ScheduleFormEdit.handleCronPresetSelect "" formData = formData.
Proof.
  intros Hin after.
  assert (Hv : truthy_string value = true).
  { unfold ScheduleFormEdit.cronPresets in Hin.
    repeat (apply elem_of_cons in Hin as [[= _ ->]|Hin]; [reflexivity|]).
    by apply elem_of_nil in Hin. }
  subst after. unfold ScheduleFormEdit.handleCronPresetSelect. rewrite Hv.
  split; [reflexivity|]. split; [by repeat split|].
  split; [|split; [|reflexivity]].
  - unfold ScheduleForm.validationErrors; simpl. rewrite Hv.
    destruct (ScheduleForm.blank _), (truthy_string (ScheduleForm.templateId _)),
      (ScheduleForm.leq_zero _), (ScheduleForm.scheduleType formData),
      (truthy_opt (ScheduleForm.nextRunTime formData)); simpl;
      apply (bool_decide_unpack _); vm_compute; exact I.
  - unfold ScheduleForm.validationErrors; simpl. rewrite Hv.
    destruct (ScheduleForm.blank _), (truthy_string (ScheduleForm.templateId _)),
      (ScheduleForm.leq_zero _), (ScheduleForm.scheduleType formData),
      (truthy_opt (ScheduleForm.nextRunTime formData)),
      (truthy_opt (ScheduleForm.cronExpression formData)); reflexivity.
Qed.

Lemma codeUnitCompare_total (a b : string) :
  (SelectorSamples.codeUnitCompare a b ≤ 0)%Z
  ∨ (SelectorSamples.codeUnitCompare b a ≤ 0)%Z.
Proof.
  unfold SelectorSamples.codeUnitCompare. rewrite (String.compare_antisym b a).
  destruct (String.compare a b); simpl; lia.
Qed.

Lemma selector_groups_sample :
  NoDup (DataTypeSelector.label <$> SelectorSamples.groups)
  ∧ concat (DataTypeSelector.options <$> SelectorSamples.groups)
    ≡ₚ DataTypeSelector.optionOf <$> SelectorSamples.dataTypes.
Proof.
  destruct (selector_groups_partition SelectorSamples.codeUnitCompare
              SelectorSamples.dataTypes SelectorSamples.groups)
    as (_ & _ & _ & Hlabels & Hall).
  - vm_compute. reflexivity.
  - by split.
Defined.

Lemma selector_groups_sorted_sample :
  Sorted (λ a b, (SelectorSamples.codeUnitCompare (DataTypeSelector.label a)
                    (DataTypeSelector.label b) ≤ 0)%Z)
    SelectorSamples.groups.
Proof.
  apply (selector_groups_sorted SelectorSamples.codeUnitCompare
           SelectorSamples.dataTypes SelectorSamples.groups).
  - apply codeUnitCompare_total.
  - vm_compute. reflexivity.
Defined.

Lemma selector2_groups_sample :
  NoDup SelectorSamples.groups2.*1
  ∧ concat SelectorSamples.groups2.*2
    ≡ₚ DataTypeSelector2.optionOf <$> SelectorSamples.entries.
Proof.
  destruct (selector2_groups_partition SelectorSamples.codeUnitCompare
              SelectorSamples.entries SelectorSamples.groups2)
    as (_ & _ & _ & Hlabels & Hall).
  - vm_compute. reflexivity.
  - by split.
Defined.

Lemma selector2_groups_sorted_sample :
  Sorted (λ a b : string * list DataTypeSelector2.DataTypeOption,
            (SelectorSamples.codeUnitCompare a.1 b.1 ≤ 0)%Z)
    SelectorSamples.groups2.
Proof.
  apply (selector2_groups_sorted SelectorSamples.codeUnitCompare
           SelectorSamples.entries SelectorSamples.groups2).
  - apply codeUnitCompare_total.
  - vm_compute. reflexivity.
Defined.

Lemma nightly_payload_sample :
  ScheduleForm.payloadCronExpression
    (ScheduleForm.schedulePayload (Some "42") SelectorSamples.nightlyForm)
  = Some "0 0 0 * * ?"
  ∧ ScheduleForm.payloadNextRunTime
      (ScheduleForm.schedulePayload (Some "42") SelectorSamples.nightlyForm)
    = None.
Proof.
  destruct (payload_has_one_trigger (Some "42") SelectorSamples.nightlyForm
              (ScheduleForm.schedulePayload (Some "42") SelectorSamples.nightlyForm))
    as (_ & _ & Htrigger).
  - reflexivity.
  - simpl in Htrigger. destruct Htrigger as (Hcron & _ & Hnext). by split.
Defined.

Lemma hourly_preset_sample :
  ScheduleForm.cronExpression
    (ScheduleFormEdit.handleCronPresetSelect "0 0 * * * ?" ScheduleForm.initialFormData)
  = Some "0 0 * * * ?".
Proof.
  apply (preset_fills_cron_expression "Every hour" "0 0 * * * ?"
           ScheduleForm.initialFormData).
  apply (bool_decide_unpack _). vm_compute. exact I.
Defined.

(** X17. When the selector's effect runs without throwing on loaded data
    types, it stores their sorted groups; for a non-empty [value] it selects
    and reports the same metadata as [handleTypeChange] would for that value,
    without calling [onChange], and the details card then has something to
    show exactly when a loaded data type has that type; for an empty [value]
    it keeps the metadata and calls nothing.  Without loaded data it does
    nothing. *)
Theorem effect_selects_like_type_change (localeCompare : string → string → Z)
    (dataTypes : list DataTypeSelector.DataTypeMetadata) (value : string)
    (hasOnMetadataChange : bool) (st st' : DataTypeSelector.State)
    (calls : list DataTypeSelector.Call) :
  DataTypeSelector.optionsEffect localeCompare (Some dataTypes) value
    hasOnMetadataChange st = Some (st', calls) →
  DataTypeSelector.sortedGroups localeCompare dataTypes
  = Some (DataTypeSelector.dataTypeOptions st')
  ∧ (value ≠ "" →
     DataTypeSelector.selectedTypeMetadata st'
     = DataTypeSelector.selectedTypeMetadata
         (DataTypeSelector.handleTypeChange (Some dataTypes) value
            hasOnMetadataChange st).1
     ∧ DataTypeSelector.OnChange value :: calls
       = (DataTypeSelector.handleTypeChange (Some dataTypes) value
            hasOnMetadataChange st).2
     ∧ (DataTypeSelector.detailsShown true st' = true
        ↔ ∃ d, d ∈ dataTypes ∧ DataTypeSelector.type d = value))
  ∧ (value = "" →
     DataTypeSelector.selectedTypeMetadata st'
     = DataTypeSelector.selectedTypeMetadata st
     ∧ calls = [])
  ∧ DataTypeSelector.optionsEffect localeCompare None value hasOnMetadataChange st
    = Some (st, []).
Proof.
  unfold DataTypeSelector.optionsEffect.
  destruct (DataTypeSelector.sortedGroups localeCompare dataTypes) as [groups|];
    [|discriminate].
  destruct (truthy_string value) eqn:Hv; intros [= <- <-]; simpl.
  - split; [reflexivity|]. split; [|split; [|reflexivity]].
    + intros _. split; [reflexivity|]. split; [reflexivity|].
      unfold DataTypeSelector.detailsShown; simpl. rewrite bool_decide_eq_true.
      split.
      * intros [d Hd]. apply findType_Some in Hd as [Ht Hin]. by exists d.
      * intros (d & Hin & Ht).
        destruct (DataTypeSelector.findType dataTypes value) as [d'|] eqn:Hf;
          [by eexists|].
        exfalso. by apply (proj1 (findType_None dataTypes value) Hf d Hin).
    + intros ->. discriminate.
  - split; [reflexivity|]. split; [|split; [|reflexivity]].
    + intros Hne. apply truthy_string_nonempty in Hne. congruence.
    + intros _. by split.
Qed.

Lemma effect_selects_uuid_sample :
  DataTypeSelector.detailsShown true
    {| DataTypeSelector.dataTypeOptions := SelectorSamples.groups;
       DataTypeSelector.selectedTypeMetadata := Some SelectorSamples.uuid |} = true
  ↔ ∃ d, d ∈ SelectorSamples.dataTypes ∧ DataTypeSelector.type d = "uuid".
Proof.
  destruct (effect_selects_like_type_change SelectorSamples.codeUnitCompare
              SelectorSamples.dataTypes "uuid" true DataTypeSelector.initialState
              {| DataTypeSelector.dataTypeOptions := SelectorSamples.groups;
                 DataTypeSelector.selectedTypeMetadata := Some SelectorSamples.uuid |}
              [DataTypeSelector.OnMetadataChange (Some SelectorSamples.uuid)])
    as (_ & Hselected & _).
  - vm_compute. reflexivity.
  - destruct Hselected as (_ & _ & Hshown); [discriminate | exact Hshown].
Defined.
